(** * LYRA voice front end (frontend/app.js): model and verified properties

    The page script wires the browser's speech recognition and speech
    synthesis to one HTTP endpoint.  This development embeds it
    shallowly: JavaScript strings are sequences of UTF-16 code units,
    values are an inductive type, the mutable globals ([state], [ui],
    [recognition], the synthesis queue) are the fields of one [World]
    threaded through a state-and-exception monad, and what the platform
    decides (the outcome of [fetch], whether [recognition.start()]
    throws, which event arrives next) is an input. *)

From Stdlib Require Import String Ascii.
From Stdlib Require Import List NArith ZArith Bool Lia.
From Stdlib Require Import DecimalString.
Import ListNotations.

Set Implicit Arguments.
Set Warnings "-register-all".
Local Open Scope N_scope.

(** ** Strings *)

(** A JavaScript string: its UTF-16 code units. *)
Definition jsstring := list N.

(** An ASCII literal of the source as a [jsstring]. *)
Definition js (s : string) : jsstring :=
  map N_of_ascii (list_ascii_of_string s).

Definition jsstring_eqb (a b : jsstring) : bool :=
  if list_eq_dec N.eq_dec a b then true else false.

Module Str.

(** The class [[<>`$\\]] of the first [replace] in [sanitizeSpokenInput]. *)
Definition is_special (c : N) : bool :=
  (c =? 60) || (c =? 62) || (c =? 96) || (c =? 36) || (c =? 92).

(** The class [\s] of ECMAScript regular expressions, which is also what
    [String.prototype.trim] strips: WhiteSpace (TAB, VT, FF, SP, NBSP,
    ZWNBSP and the Unicode space separators) and LineTerminator (LF, CR,
    LS, PS).  All of them are single code units. *)
Definition is_space (c : N) : bool :=
  ((9 <=? c) && (c <=? 13)) || (c =? 32) || (c =? 160) || (c =? 5760)
  || ((8192 <=? c) && (c <=? 8202)) || (c =? 8232) || (c =? 8233)
  || (c =? 8239) || (c =? 8287) || (c =? 12288) || (c =? 65279).

Definition space : N := 32.

(** [s.replace(/[<>`$\\]/g, ' ')]: every code unit of the class becomes
    a space. *)
Definition replace_special (s : jsstring) : jsstring :=
  map (fun c => if is_special c then space else c) s.

(** [s.replace(/\s+/g, ' ')]: every maximal run of white space becomes
    one space.  The space is emitted at the last unit of the run. *)
Fixpoint collapse_spaces (s : jsstring) : jsstring :=
  match s with
  | [] => []
  | c :: r =>
      if is_space c then
        match r with
        | c' :: _ => if is_space c' then collapse_spaces r
                     else space :: collapse_spaces r
        | [] => [space]
        end
      else c :: collapse_spaces r
  end.

Fixpoint trimStart (s : jsstring) : jsstring :=
  match s with
  | [] => []
  | c :: r => if is_space c then trimStart r else s
  end.

Fixpoint trimEnd (s : jsstring) : jsstring :=
  match s with
  | [] => []
  | c :: r =>
      match trimEnd r with
      | [] => if is_space c then [] else [c]
      | r' => c :: r'
      end
  end.

(** [s.trim()]. *)
Definition trim (s : jsstring) : jsstring := trimEnd (trimStart s).

(** [s.slice(0, n)] for a non-negative [n]. *)
Definition slice0 (n : nat) (s : jsstring) : jsstring := firstn n s.

(** Canonicalisation of a code unit under the [i] flag (no [u] flag),
    restricted to what decides a match against an ASCII pattern: ASCII
    letters are compared by their upper case, and a unit outside ASCII
    never canonicalises to an ASCII one. *)
Definition canonicalize (c : N) : N :=
  if (97 <=? c) && (c <=? 122) then c - 32 else c.

Fixpoint ci_prefix (pat s : jsstring) : bool :=
  match pat, s with
  | [], _ => true
  | _ :: _, [] => false
  | p :: pat', c :: s' =>
      (canonicalize p =? canonicalize c) && ci_prefix pat' s'
  end.

(** The literal [pat] occurs somewhere in [s], letter case ignored. *)
Fixpoint ci_contains (pat s : jsstring) : bool :=
  ci_prefix pat s ||
  match s with
  | [] => false
  | _ :: s' => ci_contains pat s'
  end.

(** [/p1|p2|.../i.test(s)] for literal alternatives. *)
Definition test_alternatives (pats : list jsstring) (s : jsstring) : bool :=
  existsb (fun p => ci_contains p s) pats.

End Str.

(** ** Values *)

(** A Number, carried by the two observations this program makes of one:
    whether it is falsy (+0 and -0; JSON text has no NaN) and the text
    that converting it to a string gives. *)
Record Number := { num_falsy : bool; num_text : jsstring }.

(** What [response.json()] can resolve with. *)
Inductive json :=
| JNull
| JBool (b : bool)
| JNum (n : Number)
| JStr (s : jsstring)
| JArr (items : list json)
| JObj (props : list (jsstring * json)).

(** Any value a function of the script can be called with: [undefined],
    the JSON-shaped values, BigInts, Symbols, and every other object, which
    is carried by what converting it to a string does ([None]: the
    conversion throws, as for [Object.create(null)] or for an object whose
    [toString] throws). *)
Inductive jsval :=
| VUndefined
| VJson (j : json)
| VBigInt (z : Z)
| VSymbol (description : option jsstring)
| VObject (conversion : option jsstring).

Inductive exn :=
| TypeError
| SyntaxError
| InvalidStateError
| Error (message : jsstring)
| Thrown.

Inductive completion (A : Type) :=
| Normal (a : A)
| Throw (e : exn).
Arguments Throw {A} e.

Definition json_truthy (j : json) : bool :=
  match j with
  | JNull => false
  | JBool b => b
  | JNum n => negb (num_falsy n)
  | JStr s => match s with [] => false | _ => true end
  | JArr _ | JObj _ => true
  end.

Definition truthy (v : jsval) : bool :=
  match v with
  | VUndefined => false
  | VJson j => json_truthy j
  | VBigInt z => negb (Z.eqb z 0)
  | VSymbol _ | VObject _ => true
  end.

(** [a || b]. *)
Definition js_or (a b : jsval) : jsval := if truthy a then a else b.

(** [a || b] where [a] is a property read from a JSON value ([None] is
    [undefined]) and [b] is a JSON-shaped value. *)
Definition json_or (a : option json) (b : json) : json :=
  match a with
  | Some j => if json_truthy j then j else b
  | None => b
  end.

(** ToString on JSON-shaped values.  An array joins its elements with
    commas, [null] elements giving the empty string. *)
Fixpoint json_to_string (j : json) : jsstring :=
  match j with
  | JNull => js "null"
  | JBool true => js "true"
  | JBool false => js "false"
  | JNum n => num_text n
  | JStr s => s
  | JArr items =>
      (fix join (l : list json) : jsstring :=
         match l with
         | [] => []
         | x :: r =>
             let e := match x with JNull => [] | _ => json_to_string x end in
             match r with
             | [] => e
             | _ :: _ => e ++ js "," ++ join r
             end
         end) items
  | JObj _ => js "[object Object]"
  end.

(** The call [String(v)]. *)
Definition String_call (v : jsval) : completion jsstring :=
  match v with
  | VUndefined => Normal (js "undefined")
  | VJson j => Normal (json_to_string j)
  | VBigInt z => Normal (js (NilZero.string_of_int (Z.to_int z)))
  | VSymbol d =>
      Normal (js "Symbol(" ++ match d with Some s => s | None => [] end ++ js ")")
  | VObject (Some s) => Normal s
  | VObject None => Throw Thrown
  end.

(** [data.name] for a name that no built-in prototype defines, as the four
    this script reads ([error], [currentSpeaker], [mode], [reply]):
    reading from [null] throws, a plain object gives its own property, and
    anything else gives [undefined]. *)
Definition get_prop (data : json) (name : jsstring) : completion (option json) :=
  match data with
  | JNull => Throw TypeError
  | JObj props =>
      Normal (option_map snd
                (find (fun kv => jsstring_eqb (fst kv) name) props))
  | _ => Normal None
  end.

(** ** The sanitizer (app.js, lines 65-71) *)

Definition sanitize_string (s : jsstring) : jsstring :=
  Str.slice0 600 (Str.trim (Str.collapse_spaces (Str.replace_special s))).

Definition sanitizeSpokenInput (text : jsval) : completion jsstring :=
  match String_call (js_or text (VJson (JStr []))) with
  | Normal s => Normal (sanitize_string s)
  | Throw e => Throw e
  end.

(** ** The page's globals *)

Module CONFIG.
Definition API_BASE_URL : jsstring := js "https://lyra-backend-16xj.onrender.com".
Definition LANG : jsstring := js "en-IN".
End CONFIG.

(** [state] (lines 7-12).  [status] is a string in the source and stays one
    here; [currentSpeaker] and [mode] start as strings and are later
    assigned from the response body, so they are JSON-shaped values. *)
Record State := {
  status : jsstring;
  currentSpeaker : json;
  mode : json;
  recognitionActive : bool
}.

(** [ui] (lines 14-19): the text of the three displays and the class list
    of the microphone button. *)
Record UI := {
  statusText : jsstring;
  speakerText : jsstring;
  modeText : jsstring;
  micButton_classList : list jsstring
}.

Record Voice := { voice_name : jsstring; voice_lang : jsstring }.

(** A [SpeechSynthesisUtterance]; [rate] and [pitch] in hundredths. *)
Record Utterance := {
  utt_text : jsstring;
  utt_lang : jsstring;
  utt_rate : N;
  utt_pitch : N;
  utt_voice : option Voice
}.

(** [window.speechSynthesis]: the voices it lists and the utterances
    speaking or queued. *)
Record Synth := { voices : list Voice; queue : list Utterance }.

(** The object [new SpeechRecognition()] as [buildRecognition] configures
    it. *)
Record Recognition := {
  rec_lang : jsstring;
  interimResults : bool;
  maxAlternatives : N
}.

(** The body sent to the backend. *)
Record Payload := {
  message : jsstring;
  payload_currentSpeaker : json;
  payload_mode : json
}.

Record Request := {
  url : jsstring;
  method : jsstring;
  content_type : jsstring;
  body : Payload
}.

(** The one closure the script hands to [setTimeout]:
    [() => setStatus('Idle')]. *)
Inductive Callback := SetStatusIdle.

(** What the script does to the outside, newest first. *)
Inductive Effect :=
| ConsoleError (e : exn)
| Fetch (r : Request)
| SetTimeout (cb : Callback) (ms : N)
| RecognitionStart
| RecognitionStop
| SpeakCall (text : json).

Record World := {
  state : State;
  ui : UI;
  speechSynthesisRef : option Synth;
  SpeechRecognition : bool;
  recognition : option Recognition;
  effects : list Effect
}.

Definition with_state (f : State -> State) (w : World) : World :=
  {| state := f (state w); ui := ui w;
     speechSynthesisRef := speechSynthesisRef w;
     SpeechRecognition := SpeechRecognition w;
     recognition := recognition w; effects := effects w |}.

Definition with_ui (f : UI -> UI) (w : World) : World :=
  {| state := state w; ui := f (ui w);
     speechSynthesisRef := speechSynthesisRef w;
     SpeechRecognition := SpeechRecognition w;
     recognition := recognition w; effects := effects w |}.

Definition with_synth (f : Synth -> Synth) (w : World) : World :=
  {| state := state w; ui := ui w;
     speechSynthesisRef := option_map f (speechSynthesisRef w);
     SpeechRecognition := SpeechRecognition w;
     recognition := recognition w; effects := effects w |}.

Definition with_recognition (r : option Recognition) (w : World) : World :=
  {| state := state w; ui := ui w;
     speechSynthesisRef := speechSynthesisRef w;
     SpeechRecognition := SpeechRecognition w;
     recognition := r; effects := effects w |}.

Definition with_effect (e : Effect) (w : World) : World :=
  {| state := state w; ui := ui w;
     speechSynthesisRef := speechSynthesisRef w;
     SpeechRecognition := SpeechRecognition w;
     recognition := recognition w; effects := e :: effects w |}.

Definition set_status (v : jsstring) (st : State) : State :=
  {| status := v; currentSpeaker := currentSpeaker st; mode := mode st;
     recognitionActive := recognitionActive st |}.

Definition set_currentSpeaker (v : json) (st : State) : State :=
  {| status := status st; currentSpeaker := v; mode := mode st;
     recognitionActive := recognitionActive st |}.

Definition set_mode (v : json) (st : State) : State :=
  {| status := status st; currentSpeaker := currentSpeaker st; mode := v;
     recognitionActive := recognitionActive st |}.

Definition set_recognitionActive (v : bool) (st : State) : State :=
  {| status := status st; currentSpeaker := currentSpeaker st; mode := mode st;
     recognitionActive := v |}.

(** ** The monad of the script: state and exceptions *)

Definition M (A : Type) : Type := World -> completion A * World.

Definition ret {A} (a : A) : M A := fun w => (Normal a, w).

Definition bind {A B} (m : M A) (k : A -> M B) : M B :=
  fun w =>
    match m w with
    | (Normal a, w') => k a w'
    | (Throw e, w') => (Throw e, w')
    end.

Definition throw {A} (e : exn) : M A := fun w => (Throw e, w).

(** [try { body } catch (error) { handler }]. *)
Definition try_catch {A} (body : M A) (handler : exn -> M A) : M A :=
  fun w =>
    match body w with
    | (Normal a, w') => (Normal a, w')
    | (Throw e, w') => handler e w'
    end.

Definition get {A} (f : World -> A) : M A := fun w => (Normal (f w), w).

Definition modify (f : World -> World) : M unit := fun w => (Normal tt, f w).

Definition lift {A} (c : completion A) : M A := fun w => (c, w).

Definition emit (e : Effect) : M unit := modify (with_effect e).

Declare Scope js_scope.
Delimit Scope js_scope with js.
Notation "x <- c ;; k" := (bind c (fun x => k))
  (at level 61, c at next level, right associativity) : js_scope.
Notation "c ;; k" := (bind c (fun _ => k))
  (at level 61, right associativity) : js_scope.
Local Open Scope js_scope.

(** The world an action leaves, however it completes. *)
Definition exec {A} (m : M A) (w : World) : World := snd (m w).

(** ** The script *)

(** What assigning [v] to [textContent] shows: [null] shows nothing. *)
Definition text_content (v : json) : jsstring :=
  match v with
  | JNull => []
  | _ => json_to_string v
  end.

Definition classList_contains (token : jsstring) (cl : list jsstring) : bool :=
  existsb (jsstring_eqb token) cl.

Definition classList_remove (tokens cl : list jsstring) : list jsstring :=
  filter (fun c => negb (classList_contains c tokens)) cl.

Definition classList_add (token : jsstring) (cl : list jsstring) : list jsstring :=
  if classList_contains token cl then cl else cl ++ [token].

(** What [updateUI] (lines 24-33) writes, given what [state] holds. *)
Definition updateUI_writes (st : State) (u : UI) : UI :=
  let cl := classList_remove [js "listening"; js "thinking"; js "error"]
              (micButton_classList u) in
  let cl := if jsstring_eqb (status st) (js "Listening")
            then classList_add (js "listening") cl else cl in
  let cl := if jsstring_eqb (status st) (js "Thinking")
            then classList_add (js "thinking") cl else cl in
  let cl := if jsstring_eqb (status st) (js "Error")
            then classList_add (js "error") cl else cl in
  {| statusText := status st;
     speakerText := text_content (currentSpeaker st);
     modeText := text_content (mode st);
     micButton_classList := cl |}.

Definition updateUI : M unit :=
  modify (fun w => with_ui (updateUI_writes (state w)) w).

Definition setStatus (value : jsstring) : M unit :=
  modify (with_state (set_status value)) ;;
  updateUI.

(** [a || b] where [a] is an object or [undefined]. *)
Definition object_or {A} (a b : option A) : option A :=
  match a with
  | Some _ => a
  | None => b
  end.

Definition lang_patterns : list jsstring := [js "en-IN"; js "hi-IN"; js "mr-IN"].

Definition name_patterns : list jsstring :=
  [js "female"; js "zira"; js "heera"; js "priya"; js "veena";
   js "raveena"; js "sangeeta"].

(** Lines 40-48.  [None] is [undefined]. *)
Definition getPreferredVoice : M (option Voice) :=
  synth <- get speechSynthesisRef ;;
  match synth with
  | None => throw TypeError
  | Some s =>
      let voices := voices s in
      ret (object_or
             (find (fun voice => Str.test_alternatives lang_patterns (voice_lang voice)) voices)
             (object_or
                (find (fun voice => Str.test_alternatives name_patterns (voice_name voice)) voices)
                (nth_error voices 0)))
  end.

Definition synth_cancel (s : Synth) : Synth :=
  {| voices := voices s; queue := [] |}.

Definition synth_speak (u : Utterance) (s : Synth) : Synth :=
  {| voices := voices s; queue := queue s ++ [u] |}.

(** Lines 50-63.  Each call is also recorded as a [SpeakCall]. *)
Definition speak (text : json) : M unit :=
  emit (SpeakCall text) ;;
  synth <- get speechSynthesisRef ;;
  match synth with
  | None => ret tt
  | Some _ =>
      if negb (json_truthy text) then ret tt
      else
        modify (with_synth synth_cancel) ;;
        voice <- getPreferredVoice ;;
        let utterance :=
          {| utt_text := json_to_string text; utt_lang := CONFIG.LANG;
             utt_rate := 100; utt_pitch := 102; utt_voice := voice |} in
        modify (with_synth (synth_speak utterance))
  end.

(** What the platform makes of one request: [fetch] rejects, or it
    resolves with a response whose [ok] flag is given and whose [json()]
    rejects or resolves with a value. *)
Inductive Outcome :=
| FetchRejected (e : exn)
| JsonRejected (ok : bool) (e : exn)
| Body (ok : bool) (data : json).

Definition connection_issue : jsstring :=
  js "Sorry, I am facing a connection issue right now. Please try again.".

Definition no_response : jsstring :=
  js "Sorry, I could not generate a response right now.".

(** Lines 77-87: the [try] block up to the [await] of [fetch]. *)
Definition sendToLyra_request (userText : jsval) : M Request :=
  message <- lift (sanitizeSpokenInput userText) ;;
  st <- get state ;;
  let payload :=
    {| message := message;
       payload_currentSpeaker := currentSpeaker st;
       payload_mode := mode st |} in
  let request :=
    {| url := CONFIG.API_BASE_URL ++ js "/lyra";
       method := js "POST";
       content_type := js "application/json";
       body := payload |} in
  emit (Fetch request) ;;
  ret request.

(** Lines 83-100: the [try] block from the settling of [fetch] on. *)
Definition sendToLyra_response (o : Outcome) : M unit :=
  match o with
  | FetchRejected e => throw e
  | JsonRejected _ e => throw e
  | Body ok data =>
      (if negb ok then
         error <- lift (get_prop data (js "error")) ;;
         throw (Error (json_to_string
                         (json_or error (JStr (js "Unable to process request.")))))
       else ret tt) ;;
      speaker <- lift (get_prop data (js "currentSpeaker")) ;;
      st <- get state ;;
      modify (with_state (set_currentSpeaker (json_or speaker (currentSpeaker st)))) ;;
      mode' <- lift (get_prop data (js "mode")) ;;
      st <- get state ;;
      modify (with_state (set_mode (json_or mode' (mode st)))) ;;
      updateUI ;;
      reply <- lift (get_prop data (js "reply")) ;;
      speak (json_or reply (JStr no_response)) ;;
      setStatus (js "Idle")
  end.

(** Lines 101-106: the [catch] block. *)
Definition sendToLyra_catch (error : exn) : M unit :=
  emit (ConsoleError error) ;;
  setStatus (js "Error") ;;
  speak (JStr connection_issue) ;;
  emit (SetTimeout SetStatusIdle 1200).

(** Lines 77-100: the whole [try] block, with the platform's answer to
    the request as [net]. *)
Definition sendToLyra_try (userText : jsval) (net : Request -> Outcome) : M unit :=
  request <- sendToLyra_request userText ;;
  sendToLyra_response (net request).

(** Lines 73-107. *)
Definition sendToLyra (userText : jsval) (net : Request -> Outcome) : M unit :=
  setStatus (js "Thinking") ;;
  try_catch (sendToLyra_try userText net) sendToLyra_catch.

(** The same function as the event loop runs it: the part before the
    [await], and the part after the request has settled. *)
Definition sendToLyra_start (userText : jsval) : M unit :=
  setStatus (js "Thinking") ;;
  try_catch
    (_ <- sendToLyra_request userText ;; ret tt)
    sendToLyra_catch.

Definition sendToLyra_resume (o : Outcome) : M unit :=
  try_catch (sendToLyra_response o) sendToLyra_catch.

Definition run_callback (cb : Callback) : M unit :=
  match cb with
  | SetStatusIdle => setStatus (js "Idle")
  end.

(** Lines 109-149. *)
Definition buildRecognition : M (option Recognition) :=
  available <- get SpeechRecognition ;;
  if negb available then
    setStatus (js "Error") ;;
    speak (JStr (js "Speech recognition is not supported in this browser. Please use Chrome.")) ;;
    ret None
  else
    ret (Some {| rec_lang := CONFIG.LANG; interimResults := false;
                 maxAlternatives := 1 |}).

Definition recognition_onstart : M unit :=
  modify (with_state (set_recognitionActive true)) ;;
  setStatus (js "Listening").

Record Alternative := { transcript : jsval }.

(** A result event; [results] may be absent, and so may any result or
    alternative in it. *)
Record RecognitionEvent := { results : option (list (list Alternative)) }.

(** [event.results?.[0]?.[0]?.transcript]. *)
Definition first_transcript (event : RecognitionEvent) : jsval :=
  match results event with
  | None => VUndefined
  | Some rs =>
      match nth_error rs 0 with
      | None => VUndefined
      | Some alternatives =>
          match nth_error alternatives 0 with
          | None => VUndefined
          | Some alternative => transcript alternative
          end
      end
  end.

Definition recognition_onresult (event : RecognitionEvent) : M unit :=
  let transcript := js_or (first_transcript event) (VJson (JStr [])) in
  cleaned <- lift (sanitizeSpokenInput transcript) ;;
  match cleaned with
  | [] => setStatus (js "Idle")
  | _ :: _ => sendToLyra_start (VJson (JStr cleaned))
  end.

Definition recognition_onerror : M unit :=
  modify (with_state (set_recognitionActive false)) ;;
  setStatus (js "Error") ;;
  speak (JStr (js "I could not hear you clearly. Please try again.")) ;;
  emit (SetTimeout SetStatusIdle 1000).

Definition recognition_onend : M unit :=
  modify (with_state (set_recognitionActive false)) ;;
  st <- get state ;;
  if jsstring_eqb (status st) (js "Listening") then setStatus (js "Idle")
  else ret tt.

(** Lines 153-171; whether [recognition.start()] throws is the
    platform's. *)
Definition micButton_click (start_throws : bool) : M unit :=
  r <- get recognition ;;
  match r with
  | None =>
      r' <- buildRecognition ;;
      modify (with_recognition r')
  | Some _ =>
      st <- get state ;;
      if recognitionActive st then
        emit RecognitionStop ;;
        setStatus (js "Idle")
      else
        try_catch
          (if start_throws then throw InvalidStateError
           else emit RecognitionStart)
          (fun _ => setStatus (js "Idle"))
  end.

(** Lines 173-176, after the platform has replaced the voice list. *)
Definition voiceschanged (vs : list Voice) : M unit :=
  synth <- get speechSynthesisRef ;;
  match synth with
  | None => ret tt
  | Some _ =>
      modify (with_synth (fun s => {| voices := vs; queue := queue s |})) ;;
      _ <- getPreferredVoice ;;
      ret tt
  end.

(** The top level of the script: lines 151 and 178. *)
Definition main : M unit :=
  r <- buildRecognition ;;
  modify (with_recognition r) ;;
  updateUI.

(** The world the script is loaded into: the literal [state] of lines
    7-12, and whatever the page and the browser provide. *)
Definition initial_world (page : UI) (synth : option Synth) (sr : bool) : World :=
  {| state := {| status := js "Idle"; currentSpeaker := JStr (js "Chaitu");
                 mode := JStr (js "CHILL"); recognitionActive := false |};
     ui := page;
     speechSynthesisRef := synth;
     SpeechRecognition := sr;
     recognition := None;
     effects := [] |}.

(** ** The event loop *)

(** What the platform can deliver: a click on the button, the four
    recognition callbacks, the settling of a pending request, a timer
    firing, a change of the voice list.  Any of them may come at any
    time. *)
Inductive Event :=
| Click (start_throws : bool)
| OnStart
| OnResult (event : RecognitionEvent)
| OnError
| OnEnd
| Settled (o : Outcome)
| Timer (cb : Callback)
| VoicesChanged (vs : list Voice).

Definition dispatch (e : Event) : M unit :=
  match e with
  | Click start_throws => micButton_click start_throws
  | OnStart => recognition_onstart
  | OnResult event => recognition_onresult event
  | OnError => recognition_onerror
  | OnEnd => recognition_onend
  | Settled o => sendToLyra_resume o
  | Timer cb => run_callback cb
  | VoicesChanged vs => voiceschanged vs
  end.

(** The world after the script has loaded and the events [es] have been
    handled in order; an exception that escapes a handler leaves the world
    as the handler left it. *)
Definition run (es : list Event) (w : World) : World :=
  fold_left (fun w e => exec (dispatch e) w) es (exec main w).

(** ** Vocabulary of the properties *)

Definition no_special (s : jsstring) : Prop :=
  Forall (fun c => Str.is_special c = false) s.

Definition starts_tight (s : jsstring) : bool :=
  match s with
  | [] => true
  | c :: _ => negb (Str.is_space c)
  end.

(** No two white-space units in a row. *)
Fixpoint no_consecutive_spaces (s : jsstring) : bool :=
  match s with
  | [] => true
  | c :: r =>
      (negb (Str.is_space c && negb (starts_tight r)))
      && no_consecutive_spaces r
  end.

(** Text that is already clean: none of the replaced characters, no
    leading, trailing or consecutive white space. *)
Definition clean (s : jsstring) : Prop :=
  no_special s /\ starts_tight s = true /\ starts_tight (rev s) = true
  /\ no_consecutive_spaces s = true.

(** Every white-space unit is a plain space and is followed by a unit
    that is not white space, if by any. *)
Fixpoint single_spaced (s : jsstring) : bool :=
  match s with
  | [] => true
  | c :: r =>
      (if Str.is_space c then (c =? Str.space) && starts_tight r else true)
      && single_spaced r
  end.

Definition status_values : list jsstring :=
  [js "Idle"; js "Listening"; js "Thinking"; js "Error"].

(** [state.status] is one of the four values of the enumeration. *)
Definition status_valid (st : State) : Prop := In (status st) status_values.

(** The displays show what [state] holds, and of the three status classes
    the button carries exactly the one of the current status. *)
Definition ui_projects (st : State) (u : UI) : Prop :=
  statusText u = status st
  /\ speakerText u = text_content (currentSpeaker st)
  /\ modeText u = text_content (mode st)
  /\ classList_contains (js "listening") (micButton_classList u)
     = jsstring_eqb (status st) (js "Listening")
  /\ classList_contains (js "thinking") (micButton_classList u)
     = jsstring_eqb (status st) (js "Thinking")
  /\ classList_contains (js "error") (micButton_classList u)
     = jsstring_eqb (status st) (js "Error").

(** The invariant of the interaction state: a status of the enumeration,
    and a page that shows the state. *)
Definition consistent (w : World) : Prop :=
  status_valid (state w) /\ ui_projects (state w) (ui w).

(** The action keeps the invariant, however it completes. *)
Definition preserves {A} (m : M A) : Prop :=
  forall w, consistent w -> consistent (exec m w).

(** What reading [data.name] gives when [data] is not [null]; [None] is
    [undefined]. *)
Definition own (data : json) (name : jsstring) : option json :=
  match get_prop data name with
  | Normal o => o
  | Throw _ => None
  end.



(** The fetch rejects, the parse of the body rejects, or the status is a
    failure status. *)
Definition request_fails (o : Outcome) : bool :=
  match o with
  | FetchRejected _ => true
  | JsonRejected _ _ => true
  | Body ok _ => negb ok
  end.

(** The request [sendToLyra] makes for the sanitized text [m] while
    [state] is [st]. *)
Definition request_of (m : jsstring) (st : State) : Request :=
  {| url := js "https://lyra-backend-16xj.onrender.com/lyra";
     method := js "POST";
     content_type := js "application/json";
     body := {| message := m;
                payload_currentSpeaker := currentSpeaker st;
                payload_mode := mode st |} |}.

(** The failure path of [sendToLyra] as the world shows it: status
    [Error], the fixed message the latest call of [speak], and the timer
    that resets the status the latest effect. *)
Definition failure_reported (w : World) : Prop :=
  status (state w) = js "Error"
  /\ (exists e rest,
        effects w = SetTimeout SetStatusIdle 1200
                      :: SpeakCall (JStr connection_issue)
                      :: ConsoleError e :: rest)
  /\ match speechSynthesisRef w with
     | Some s => exists u, queue s = [u] /\ utt_text u = connection_issue
     | None => True
     end.


(** The body without its property [name]. *)
Definition without (name : jsstring) (data : json) : json :=
  match data with
  | JObj props =>
      JObj (filter (fun kv => negb (jsstring_eqb (fst kv) name)) props)
  | _ => data
  end.

(** [v] is the first element of [l] that satisfies [p]. *)
Definition first_such {A} (p : A -> bool) (l : list A) (v : A) : Prop :=
  exists before after,
    l = before ++ v :: after /\ p v = true /\ Forall (fun x => p x = false) before.

(** The voice's locale tag matches [/en-IN|hi-IN|mr-IN/i]. *)
Definition lang_matches (v : Voice) : bool :=
  Str.test_alternatives lang_patterns (voice_lang v).

(** The voice's display name matches the name pattern of line 45. *)
Definition name_matches (v : Voice) : bool :=
  Str.test_alternatives name_patterns (voice_name v).

(** Worlds and values used as concrete instances. *)
Module Example.

Definition page : UI :=
  {| statusText := []; speakerText := []; modeText := [];
     micButton_classList := [js "mic-button"] |}.

Definition david : Voice := {| voice_name := js "David"; voice_lang := js "en-US" |}.
Definition zira : Voice := {| voice_name := js "Zira"; voice_lang := js "en-US" |}.
Definition ravi : Voice := {| voice_name := js "Ravi"; voice_lang := js "en-IN" |}.

Definition synth : Synth := {| voices := [david; zira; ravi]; queue := [] |}.

(** The page once the script has loaded, in a browser that has both
    speech capabilities. *)
Definition loaded : World := exec main (initial_world page (Some synth) true).

Definition hello : jsval := VJson (JStr (js "  hello   world!! ")).


Definition blank_speaker : json :=
  JObj [(js "reply", JStr (js "hi")); (js "currentSpeaker", JStr [])].


End Example.

(** ** Vocabulary of the further properties *)

(** The last unit, if there is one, is not white space. *)
Fixpoint ends_tight (s : jsstring) : bool :=
  match s with
  | [] => true
  | c :: r =>
      match r with
      | [] => negb (Str.is_space c)
      | _ :: _ => ends_tight r
      end
  end.


(** The two strings are the same up to the case of ASCII letters. *)
Definition same_caseless (s s' : jsstring) : Prop :=
  map Str.canonicalize s = map Str.canonicalize s'.



(** The action keeps the property [I] of the world, however it
    completes. *)
Definition keeps {A} (I : World -> Prop) (m : M A) : Prop :=
  forall w, I w -> I (exec m w).


(** Against the synthesis capability [synth0] the page started with: the
    script has left the queue as it found it or holds exactly one
    utterance in it, and a browser without the capability is still
    without. *)
Definition queue_short (synth0 : option Synth) (w : World) : Prop :=
  match speechSynthesisRef w, synth0 with
  | Some s, Some s0 => queue s = queue s0 \/ length (queue s) = 1%nat
  | None, None => True
  | _, _ => False
  end.

Definition speaker_mode_truthy (w : World) : Prop :=
  json_truthy (currentSpeaker (state w)) = true
  /\ json_truthy (mode (state w)) = true.

(** While the status is [Listening], recognition is marked active. *)
Definition listening_is_active (w : World) : Prop :=
  status (state w) = js "Listening" -> recognitionActive (state w) = true.

(** The recognition object as lines 116-119 configure it. *)
Definition configured : Recognition :=
  {| rec_lang := js "en-IN"; interimResults := false; maxAlternatives := 1 |}.

(** In a browser that has speech recognition ([sr]) [recognition] is the
    configured object; in one that has not it is [null] and recognition
    has never been started. *)
Definition recognition_settled (sr : bool) (w : World) : Prop :=
  SpeechRecognition w = sr
  /\ recognition w = (if sr then Some configured else None)
  /\ (if sr then True else ~ In RecognitionStart (effects w)).






Module Example2.


Definition tagged : Voice :=
  {| voice_name := js "Google"; voice_lang := js "x_EN-in_y" |}.

End Example2.

(** * Properties *)

Unset Implicit Arguments.

(** ** Strings *)

Lemma jsstring_eqb_eq a b : jsstring_eqb a b = true <-> a = b.
Proof.
  unfold jsstring_eqb. destruct (list_eq_dec N.eq_dec a b); split; congruence.
Qed.

Lemma jsstring_eqb_refl a : jsstring_eqb a a = true.
Proof. now apply jsstring_eqb_eq. Qed.

Section Sanitizer.

Import Str.

Lemma space_is_space : is_space space = true.
Proof. reflexivity. Qed.

Lemma space_not_special : is_special space = false.
Proof. reflexivity. Qed.

Lemma replace_special_length s : length (replace_special s) = length s.
Proof. apply length_map. Qed.

Lemma replace_special_no_special s : no_special (replace_special s).
Proof.
  unfold no_special, replace_special. induction s as [|c s IH]; simpl.
  - constructor.
  - constructor; [|exact IH].
    destruct (is_special c) eqn:E; [apply space_not_special | exact E].
Qed.

Lemma replace_special_id s : no_special s -> replace_special s = s.
Proof.
  unfold no_special, replace_special. induction 1 as [|c s Hc _ IH]; simpl.
  - reflexivity.
  - now rewrite Hc, IH.
Qed.

Lemma collapse_spaces_cons c r :
  collapse_spaces (c :: r) =
  if is_space c then
    if starts_tight r then space :: collapse_spaces r else collapse_spaces r
  else c :: collapse_spaces r.
Proof.
  simpl. destruct (is_space c); [|reflexivity].
  destruct r as [|c' r]; simpl; [reflexivity|].
  now destruct (is_space c').
Qed.

Lemma collapse_spaces_length s : (length (collapse_spaces s) <= length s)%nat.
Proof.
  induction s as [|c r IH]; [simpl; lia|].
  rewrite collapse_spaces_cons.
  destruct (is_space c); [destruct (starts_tight r)|]; simpl; lia.
Qed.

Lemma collapse_spaces_no_special s : no_special s -> no_special (collapse_spaces s).
Proof.
  unfold no_special. induction 1 as [|c r Hc _ IH]; [constructor|].
  rewrite collapse_spaces_cons.
  destruct (is_space c); [destruct (starts_tight r)|].
  - constructor; [apply space_not_special | exact IH].
  - exact IH.
  - constructor; assumption.
Qed.

Lemma collapse_spaces_starts_tight s :
  starts_tight (collapse_spaces s) = starts_tight s.
Proof.
  induction s as [|c r IH]; [reflexivity|].
  rewrite collapse_spaces_cons. simpl.
  destruct (is_space c) eqn:E; simpl; [|now rewrite E].
  destruct (starts_tight r) eqn:T; simpl; [reflexivity|].
  exact IH.
Qed.

Lemma collapse_spaces_single_spaced s : single_spaced (collapse_spaces s) = true.
Proof.
  induction s as [|c r IH]; [reflexivity|].
  rewrite collapse_spaces_cons.
  destruct (is_space c) eqn:E; [destruct (starts_tight r) eqn:T|]; simpl.
  - rewrite collapse_spaces_starts_tight, T, IH. reflexivity.
  - exact IH.
  - now rewrite E, IH.
Qed.

Lemma collapse_spaces_id s : single_spaced s = true -> collapse_spaces s = s.
Proof.
  induction s as [|c r IH]; [reflexivity|].
  rewrite collapse_spaces_cons. simpl.
  intros H. apply andb_true_iff in H as [H1 H2].
  rewrite (IH H2).
  destruct (is_space c); [|reflexivity].
  apply andb_true_iff in H1 as [H1 H3]. rewrite H3.
  apply N.eqb_eq in H1. now subst c.
Qed.

Lemma trimStart_length s : (length (trimStart s) <= length s)%nat.
Proof.
  induction s as [|c r IH]; simpl; [lia|].
  destruct (is_space c); simpl; lia.
Qed.

Lemma trimEnd_length s : (length (trimEnd s) <= length s)%nat.
Proof.
  induction s as [|c r IH]; simpl; [lia|].
  destruct (trimEnd r); [destruct (is_space c)|]; simpl in *; lia.
Qed.

Lemma trimStart_Forall (P : N -> Prop) s : Forall P s -> Forall P (trimStart s).
Proof.
  induction 1 as [|c r Hc Hr IH]; simpl; [constructor|].
  destruct (is_space c); [exact IH | now constructor].
Qed.

Lemma trimEnd_Forall (P : N -> Prop) s : Forall P s -> Forall P (trimEnd s).
Proof.
  induction 1 as [|c r Hc Hr IH]; simpl; [constructor|].
  destruct (trimEnd r).
  - destruct (is_space c); repeat constructor; exact Hc.
  - now constructor.
Qed.

Lemma trimStart_starts_tight s : starts_tight (trimStart s) = true.
Proof.
  induction s as [|c r IH]; simpl; [reflexivity|].
  destruct (is_space c) eqn:E; [exact IH | simpl; now rewrite E].
Qed.

Lemma trimStart_id s : starts_tight s = true -> trimStart s = s.
Proof.
  destruct s as [|c r]; simpl; [reflexivity|].
  now destruct (is_space c).
Qed.

Lemma trimEnd_starts_tight s :
  starts_tight s = true -> starts_tight (trimEnd s) = true.
Proof.
  destruct s as [|c r]; simpl; [reflexivity|].
  destruct (is_space c) eqn:E; [discriminate|]. intros _.
  destruct (trimEnd r); simpl; now rewrite E.
Qed.

Lemma trimEnd_idempotent s : trimEnd (trimEnd s) = trimEnd s.
Proof.
  induction s as [|c r IH]; simpl; [reflexivity|].
  destruct (trimEnd r) as [|c' t] eqn:E.
  - destruct (is_space c) eqn:Ec; simpl; [reflexivity | now rewrite Ec].
  - change (trimEnd (c :: c' :: t)) with
      (match trimEnd (c' :: t) with
       | [] => if is_space c then [] else [c]
       | r' => c :: r'
       end).
    now rewrite IH.
Qed.

Lemma trimStart_single_spaced s :
  single_spaced s = true -> single_spaced (trimStart s) = true.
Proof.
  induction s as [|c r IH]; simpl; [reflexivity|].
  intros H. destruct (is_space c) eqn:E.
  - apply andb_true_iff in H as [_ H]. now apply IH.
  - simpl. now rewrite E.
Qed.

Lemma trimEnd_single_spaced s :
  single_spaced s = true -> single_spaced (trimEnd s) = true.
Proof.
  induction s as [|c r IH]; simpl; [reflexivity|].
  intros H. apply andb_true_iff in H as [H1 H2].
  specialize (IH H2).
  destruct (trimEnd r) as [|c' t] eqn:E.
  - destruct (is_space c) eqn:Ec; simpl; [reflexivity | now rewrite Ec].
  - change (single_spaced (c :: c' :: t)) with
      ((if is_space c then (c =? space) && starts_tight (c' :: t) else true)
       && single_spaced (c' :: t)).
    rewrite IH, andb_true_r.
    destruct (is_space c); [|reflexivity].
    apply andb_true_iff in H1 as [H1 H3].
    apply andb_true_iff; split; [exact H1|].
    rewrite <- E. now apply trimEnd_starts_tight.
Qed.

Lemma trim_length s : (length (trim s) <= length s)%nat.
Proof.
  unfold trim. pose proof (trimEnd_length (trimStart s)).
  pose proof (trimStart_length s). lia.
Qed.

Lemma trim_idempotent s : trim (trim s) = trim s.
Proof.
  unfold trim.
  rewrite (trimStart_id (trimEnd (trimStart s))).
  - apply trimEnd_idempotent.
  - apply trimEnd_starts_tight, trimStart_starts_tight.
Qed.

(** The text before the cut at 600 units. *)
Lemma sanitize_string_unfold s :
  sanitize_string s = firstn 600 (trim (collapse_spaces (replace_special s))).
Proof. reflexivity. Qed.

Lemma tidy_no_special s : no_special (trim (collapse_spaces (replace_special s))).
Proof.
  apply trimEnd_Forall, trimStart_Forall, collapse_spaces_no_special,
    replace_special_no_special.
Qed.

Lemma tidy_single_spaced s :
  single_spaced (trim (collapse_spaces (replace_special s))) = true.
Proof.
  apply trimEnd_single_spaced, trimStart_single_spaced,
    collapse_spaces_single_spaced.
Qed.

Lemma tidy_length s :
  (length (trim (collapse_spaces (replace_special s))) <= length s)%nat.
Proof.
  pose proof (trim_length (collapse_spaces (replace_special s))).
  pose proof (collapse_spaces_length (replace_special s)).
  pose proof (replace_special_length s). lia.
Qed.

Lemma firstn_Forall (P : N -> Prop) n s : Forall P s -> Forall P (firstn n s).
Proof.
  intros H. revert n. induction H as [|c r Hc Hr IH]; intros [|n]; simpl;
    constructor; auto.
Qed.

Lemma sanitize_string_length s : (length (sanitize_string s) <= 600)%nat.
Proof. apply firstn_le_length. Qed.

Lemma sanitize_string_no_special s : no_special (sanitize_string s).
Proof. apply firstn_Forall, tidy_no_special. Qed.

(** Text of at most 600 units comes out whole, and sanitizing the result
    again changes nothing. *)
Lemma sanitize_string_short s :
  (length s <= 600)%nat ->
  sanitize_string s = trim (collapse_spaces (replace_special s)).
Proof.
  intros H. rewrite sanitize_string_unfold. apply firstn_all2.
  pose proof (tidy_length s). lia.
Qed.

Lemma sanitize_string_fixes_short s :
  (length s <= 600)%nat ->
  sanitize_string (sanitize_string s) = sanitize_string s.
Proof.
  intros H. rewrite !(sanitize_string_short s H).
  pose proof (tidy_length s) as Hy.
  rewrite sanitize_string_short by lia.
  rewrite replace_special_id by apply tidy_no_special.
  rewrite collapse_spaces_id by apply tidy_single_spaced.
  apply trim_idempotent.
Qed.

Lemma sanitizeSpokenInput_string s :
  sanitizeSpokenInput (VJson (JStr s)) = Normal (sanitize_string s).
Proof. now destruct s. Qed.

End Sanitizer.

(** ** The sanitizer *)


Example sanitize_scenario :
  sanitizeSpokenInput Example.hello = Normal (js "hello world!!").
Proof. reflexivity. Qed.

Example sanitize_replaces :
  sanitizeSpokenInput (VJson (JStr (js "<b>a`b$c\\d</b>")))
  = Normal (js "b a b c d /b").
Proof. reflexivity. Qed.

Example sanitize_undefined : sanitizeSpokenInput VUndefined = Normal [].
Proof. reflexivity. Qed.


(** C8.  For a string that is already clean and has at most 600 code
    units, sanitizing the sanitized text gives the sanitized text again. *)
Theorem sanitizeSpokenInput_idempotent (x : jsstring) :
  clean x -> (length x <= 600)%nat ->
  exists y,
    sanitizeSpokenInput (VJson (JStr x)) = Normal y
    /\ sanitizeSpokenInput (VJson (JStr y)) = Normal y.
Proof.
  intros _ Hlen. exists (sanitize_string x).
  rewrite !sanitizeSpokenInput_string.
  split; [reflexivity|]. f_equal. now apply sanitize_string_fixes_short.
Qed.

Lemma sanitizeSpokenInput_idempotent_witness :
  exists y,
    sanitizeSpokenInput (VJson (JStr (js "hello world"))) = Normal y
    /\ sanitizeSpokenInput (VJson (JStr y)) = Normal y.
Proof.
  apply (sanitizeSpokenInput_idempotent (js "hello world")).
  - unfold clean, no_special. repeat split; repeat constructor.
  - simpl. lia.
Defined.

(** ** The voice selector *)

Lemma find_first_such {A} (p : A -> bool) l v :
  find p l = Some v -> first_such p l v.
Proof.
  induction l as [|x l IH]; simpl; [discriminate|].
  destruct (p x) eqn:E.
  - intros [= ->]. exists [], l. repeat split; [exact E | constructor].
  - intros H. destruct (IH H) as (b & a & -> & Hv & Hb).
    exists (x :: b), a. repeat split; [exact Hv | now constructor].
Qed.

Lemma find_none_Forall {A} (p : A -> bool) l :
  find p l = None -> Forall (fun x => p x = false) l.
Proof.
  induction l as [|x l IH]; simpl; [constructor|].
  destruct (p x) eqn:E; [discriminate|]. intros H. constructor; auto.
Qed.

(** C6.  Where speech synthesis exists, [getPreferredVoice] returns the
    first voice whose locale tag matches the pattern; if there is none,
    the first voice whose name matches the name pattern; if there is none
    either, the first voice of the list; and [undefined] for the empty
    list.  It changes nothing. *)
Theorem getPreferredVoice_policy (w : World) (s : Synth) :
  speechSynthesisRef w = Some s ->
  exists r,
    getPreferredVoice w = (Normal r, w)
    /\ ((exists v, first_such lang_matches (voices s) v /\ r = Some v)
        \/ (Forall (fun v => lang_matches v = false) (voices s)
            /\ exists v, first_such name_matches (voices s) v /\ r = Some v)
        \/ (Forall (fun v => lang_matches v = false) (voices s)
            /\ Forall (fun v => name_matches v = false) (voices s)
            /\ r = hd_error (voices s)))
    /\ (voices s = [] -> r = None).
Proof.
  intros Hs. unfold getPreferredVoice, bind, get, ret. rewrite Hs.
  eexists. split; [reflexivity|].
  fold lang_matches. fold name_matches.
  split.
  - destruct (find lang_matches (voices s)) as [v|] eqn:El.
    + left. exists v. split; [now apply find_first_such | reflexivity].
    + right. apply find_none_Forall in El.
      destruct (find name_matches (voices s)) as [v|] eqn:En.
      * left. split; [exact El|]. exists v.
        split; [now apply find_first_such | reflexivity].
      * right. apply find_none_Forall in En.
        split; [exact El | split; [exact En|]].
        now destruct (voices s).
  - intros ->. reflexivity.
Qed.

Example voice_by_locale :
  fst (getPreferredVoice Example.loaded) = Normal (Some Example.ravi).
Proof. reflexivity. Qed.

Example voice_by_name :
  fst (getPreferredVoice
         (initial_world Example.page
            (Some {| voices := [Example.david; Example.zira]; queue := [] |}) true))
  = Normal (Some Example.zira).
Proof. reflexivity. Qed.

Example voice_of_empty_list :
  fst (getPreferredVoice
         (initial_world Example.page (Some {| voices := []; queue := [] |}) true))
  = Normal None.
Proof. reflexivity. Qed.

Lemma getPreferredVoice_policy_witness :
  exists r,
    getPreferredVoice Example.loaded = (Normal r, Example.loaded)
    /\ ((exists v, first_such lang_matches (voices Example.synth) v /\ r = Some v)
        \/ (Forall (fun v => lang_matches v = false) (voices Example.synth)
            /\ exists v, first_such name_matches (voices Example.synth) v /\ r = Some v)
        \/ (Forall (fun v => lang_matches v = false) (voices Example.synth)
            /\ Forall (fun v => name_matches v = false) (voices Example.synth)
            /\ r = hd_error (voices Example.synth)))
    /\ (voices Example.synth = [] -> r = None).
Proof. apply (getPreferredVoice_policy Example.loaded Example.synth). reflexivity. Defined.

(** ** The interface refresh *)

Arguments js : simpl never.
Arguments updateUI_writes : simpl never.

Lemma classList_contains_add t t' cl :
  classList_contains t (classList_add t' cl)
  = jsstring_eqb t t' || classList_contains t cl.
Proof.
  unfold classList_add. destruct (classList_contains t' cl) eqn:E.
  - destruct (jsstring_eqb t t') eqn:Et; [|reflexivity].
    apply jsstring_eqb_eq in Et. subst t'. exact E.
  - unfold classList_contains. rewrite existsb_app. simpl.
    rewrite orb_false_r. apply orb_comm.
Qed.

Lemma classList_contains_remove t ts cl :
  classList_contains t (classList_remove ts cl)
  = negb (classList_contains t ts) && classList_contains t cl.
Proof.
  unfold classList_remove, classList_contains.
  induction cl as [|c cl IH]; simpl.
  - now rewrite andb_false_r.
  - destruct (existsb (jsstring_eqb c) ts) eqn:Ec; simpl; rewrite IH;
      (destruct (jsstring_eqb t c) eqn:Et; simpl; [|reflexivity]);
      apply jsstring_eqb_eq in Et; subst c; now rewrite Ec.
Qed.

(** Whatever the page showed before, after [updateUI] it shows [state]. *)
Lemma updateUI_writes_projects st u : ui_projects st (updateUI_writes st u).
Proof.
  unfold ui_projects, updateUI_writes. cbn [statusText speakerText modeText micButton_classList].
  repeat split;
    destruct (jsstring_eqb (status st) (js "Listening"));
    destruct (jsstring_eqb (status st) (js "Thinking"));
    destruct (jsstring_eqb (status st) (js "Error"));
    rewrite ?classList_contains_add, classList_contains_remove; reflexivity.
Qed.


(** ** Running the functions of the script *)

Lemma setStatus_run value w :
  setStatus value w
  = (Normal tt,
     with_ui (updateUI_writes (set_status value (state w)))
       (with_state (set_status value) w)).
Proof. reflexivity. Qed.

(** [speak] returns normally, records its call, and touches nothing but
    the synthesis queue. *)
Lemma speak_run text w :
  fst (speak text w) = Normal tt
  /\ state (exec (speak text) w) = state w
  /\ ui (exec (speak text) w) = ui w
  /\ recognition (exec (speak text) w) = recognition w
  /\ SpeechRecognition (exec (speak text) w) = SpeechRecognition w
  /\ effects (exec (speak text) w) = SpeakCall text :: effects w.
Proof.
  unfold exec, speak, emit, modify, bind, get, ret. cbn [speechSynthesisRef with_effect].
  destruct (speechSynthesisRef w) as [s|] eqn:E; [|now repeat split].
  destruct (json_truthy text); [|now repeat split].
  cbn. unfold getPreferredVoice, bind, get, ret. cbn. rewrite E. cbn.
  now repeat split.
Qed.

(** What [speak] leaves in the synthesis queue: the one utterance of its
    text, any earlier one cancelled. *)
Lemma speak_queue text w s :
  speechSynthesisRef w = Some s -> json_truthy text = true ->
  exists u,
    speechSynthesisRef (exec (speak text) w)
    = Some {| voices := voices s; queue := [u] |}
    /\ utt_text u = json_to_string text /\ utt_lang u = CONFIG.LANG.
Proof.
  intros E T.
  unfold exec, speak, emit, modify, bind, get, ret. cbn [speechSynthesisRef with_effect].
  rewrite E, T. cbn. unfold getPreferredVoice, bind, get, ret. cbn.
  rewrite E. cbn. rewrite E. cbn.
  eexists. split; [reflexivity|]. split; reflexivity.
Qed.

Lemma speak_without_synth text w :
  speechSynthesisRef w = None -> speechSynthesisRef (exec (speak text) w) = None.
Proof.
  intros E. unfold exec, speak, emit, modify, bind, get, ret.
  cbn [speechSynthesisRef with_effect]. now rewrite E.
Qed.

Lemma speak_eq text w : speak text w = (Normal tt, exec (speak text) w).
Proof.
  pose proof (speak_run text w) as [H _]. unfold exec.
  destruct (speak text w) as [c w']. simpl in *. now subst c.
Qed.

Lemma speak_state text w : state (exec (speak text) w) = state w.
Proof. apply speak_run. Qed.

Lemma speak_ui text w : ui (exec (speak text) w) = ui w.
Proof. apply speak_run. Qed.

Lemma speak_effects text w :
  effects (exec (speak text) w) = SpeakCall text :: effects w.
Proof. apply speak_run. Qed.

Lemma speak_recognition text w :
  recognition (exec (speak text) w) = recognition w.
Proof. apply speak_run. Qed.

Lemma setStatus_exec value w :
  exec (setStatus value) w
  = with_ui (updateUI_writes (set_status value (state w)))
      (with_state (set_status value) w).
Proof. reflexivity. Qed.

Create Rewrite HintDb run.
#[local] Hint Rewrite speak_state speak_ui speak_effects speak_recognition
  setStatus_exec : run.

Ltac run_simpl :=
  repeat (autorewrite with run;
          cbn [state ui effects recognition speechSynthesisRef SpeechRecognition
               with_state with_ui with_effect with_recognition
               status currentSpeaker mode recognitionActive
               set_status set_currentSpeaker set_mode set_recognitionActive
               fst snd]).

(** The [catch] block, run. *)
Lemma sendToLyra_catch_eq e w :
  sendToLyra_catch e w
  = (Normal tt,
     with_effect (SetTimeout SetStatusIdle 1200)
       (exec (speak (JStr connection_issue))
          (exec (setStatus (js "Error")) (with_effect (ConsoleError e) w)))).
Proof.
  unfold sendToLyra_catch, bind, emit, modify.
  rewrite setStatus_run, speak_eq. reflexivity.
Qed.

Lemma get_prop_own data name :
  data <> JNull -> get_prop data name = Normal (own data name).
Proof. unfold own. destruct data; simpl; congruence. Qed.

(** The part of the [try] block before the [await]. *)
Lemma sendToLyra_request_eq userText w :
  sendToLyra_request userText w
  = match sanitizeSpokenInput userText with
    | Normal m =>
        (Normal (request_of m (state w)),
         with_effect (Fetch (request_of m (state w))) w)
    | Throw e => (Throw e, w)
    end.
Proof.
  unfold sendToLyra_request, bind, lift, get, emit, modify, ret.
  now destruct (sanitizeSpokenInput userText).
Qed.

(** The part after it, for a response that is not a failure and whose
    body is not [null]. *)
Lemma sendToLyra_response_success data w :
  data <> JNull ->
  sendToLyra_response (Body true data) w
  = (Normal tt,
     exec (setStatus (js "Idle"))
       (exec (speak (json_or (own data (js "reply")) (JStr no_response)))
          (exec updateUI
             (with_state
                (set_mode (json_or (own data (js "mode")) (mode (state w))))
                (with_state
                   (set_currentSpeaker
                      (json_or (own data (js "currentSpeaker"))
                         (currentSpeaker (state w)))) w))))).
Proof.
  intros H. unfold sendToLyra_response, bind, lift, get, modify, ret.
  cbn [negb]. rewrite !(get_prop_own data _ H). unfold updateUI, modify.
  rewrite speak_eq, setStatus_run. reflexivity.
Qed.

(** In every other case the [try] block throws, with the world as it
    was. *)
Lemma sendToLyra_response_throws o w :
  request_fails o = true \/ o = Body true JNull ->
  exists e, sendToLyra_response o w = (Throw e, w).
Proof.
  intros [H | ->]; [|now exists TypeError].
  destruct o as [e|ok e|[|] data]; try discriminate H.
  - now exists e.
  - now exists e.
  - unfold sendToLyra_response, bind, lift, throw. cbn [negb].
    destruct (get_prop data (js "error")); eauto.
Qed.

(** ** The conversation client *)

(** The whole call, by what the sanitizer and the platform answer. *)
Lemma sendToLyra_eq userText net w :
  sendToLyra userText net w
  = let w1 := exec (setStatus (js "Thinking")) w in
    match sanitizeSpokenInput userText with
    | Throw e => sendToLyra_catch e w1
    | Normal m =>
        let r := request_of m (state w1) in
        let w2 := with_effect (Fetch r) w1 in
        match sendToLyra_response (net r) w2 with
        | (Normal a, w3) => (Normal a, w3)
        | (Throw e, w3) => sendToLyra_catch e w3
        end
    end.
Proof.
  unfold sendToLyra, sendToLyra_try.
  unfold bind at 1. rewrite setStatus_run.
  unfold try_catch, bind. rewrite sendToLyra_request_eq.
  now destruct (sanitizeSpokenInput userText).
Qed.

(** The world the failure path leaves. *)
Lemma sendToLyra_catch_reports e w :
  failure_reported (exec (sendToLyra_catch e) w)
  /\ currentSpeaker (state (exec (sendToLyra_catch e) w)) = currentSpeaker (state w)
  /\ mode (state (exec (sendToLyra_catch e) w)) = mode (state w)
  /\ recognitionActive (state (exec (sendToLyra_catch e) w))
     = recognitionActive (state w).
Proof.
  unfold exec, failure_reported. rewrite sendToLyra_catch_eq. cbn [snd].
  set (w2 := exec (setStatus (js "Error")) (with_effect (ConsoleError e) w)).
  cbn [state effects speechSynthesisRef with_effect].
  rewrite speak_state, speak_effects.
  split; [split; [reflexivity | split; [subst w2; cbn; eauto|]]
         | now repeat split].
  destruct (speechSynthesisRef w2) as [s|] eqn:E.
  - destruct (speak_queue (JStr connection_issue) w2 s E eq_refl) as (u & -> & Hu & _).
    exists u. split; [reflexivity | exact Hu].
  - now rewrite (speak_without_synth _ _ E).
Qed.


Lemma own_not_null data name v : own data name = Some v -> data <> JNull.
Proof. intros H ->. discriminate H. Qed.

(** Every settled request either makes the [try] block throw, leaving
    the world as it was, or is a response that is not a failure and whose
    body is not [null]. *)
Lemma sendToLyra_response_cases o w :
  (exists e, sendToLyra_response o w = (Throw e, w))
  \/ (exists data, o = Body true data /\ data <> JNull).
Proof.
  destruct o as [e|ok e|[|] data].
  - left. now exists e.
  - left. now exists e.
  - destruct data; try (right; eexists; split; [reflexivity | discriminate]).
    left. now exists TypeError.
  - left. now apply sendToLyra_response_throws; left.
Qed.






Lemma updateUI_exec w :
  exec updateUI w = with_ui (updateUI_writes (state w)) w.
Proof. reflexivity. Qed.

#[local] Hint Rewrite updateUI_exec : run.

(** What the rest of the [try] block does with a body that is not
    [null]. *)
Lemma sendToLyra_response_effect data w :
  data <> JNull ->
  fst (sendToLyra_response (Body true data) w) = Normal tt
  /\ currentSpeaker (state (exec (sendToLyra_response (Body true data)) w))
     = json_or (own data (js "currentSpeaker")) (currentSpeaker (state w))
  /\ mode (state (exec (sendToLyra_response (Body true data)) w))
     = json_or (own data (js "mode")) (mode (state w))
  /\ status (state (exec (sendToLyra_response (Body true data)) w)) = js "Idle"
  /\ recognitionActive (state (exec (sendToLyra_response (Body true data)) w))
     = recognitionActive (state w)
  /\ effects (exec (sendToLyra_response (Body true data)) w)
     = SpeakCall (json_or (own data (js "reply")) (JStr no_response)) :: effects w
  /\ ui_projects (state (exec (sendToLyra_response (Body true data)) w))
       (ui (exec (sendToLyra_response (Body true data)) w)).
Proof.
  intros H. unfold exec at 1 2 3 4 5 6 7.
  rewrite (sendToLyra_response_success data w H). run_simpl.
  repeat (split; [reflexivity|]). apply updateUI_writes_projects.
Qed.









(** The same holds of the part that runs once the request has settled,
    whatever happened in between. *)
Lemma sendToLyra_resume_failure_frame o w e :
  fst (sendToLyra_response o w) = Throw e ->
  currentSpeaker (state (exec (sendToLyra_resume o) w)) = currentSpeaker (state w)
  /\ mode (state (exec (sendToLyra_resume o) w)) = mode (state w).
Proof.
  intros H. unfold exec, sendToLyra_resume, try_catch.
  destruct (sendToLyra_response_cases o w) as [[e' E] | (data & -> & Hd)].
  - rewrite E. destruct (sendToLyra_catch_reports e' w) as (_ & Hc & Hm & _).
    split; [exact Hc | exact Hm].
  - rewrite (sendToLyra_response_success data w Hd) in H. discriminate H.
Qed.


Lemma find_without name field (props : list (jsstring * json)) :
  find (fun kv => jsstring_eqb (fst kv) field)
    (filter (fun kv => negb (jsstring_eqb (fst kv) name)) props)
  = if jsstring_eqb field name then None
    else find (fun kv => jsstring_eqb (fst kv) field) props.
Proof.
  induction props as [|[k x] props IH]; simpl; [now destruct (jsstring_eqb field name)|].
  destruct (jsstring_eqb k name) eqn:Ek; simpl.
  - rewrite IH. destruct (jsstring_eqb field name) eqn:Ef; [reflexivity|].
    destruct (jsstring_eqb k field) eqn:Ekf; [|reflexivity].
    apply jsstring_eqb_eq in Ekf, Ek. subst.
    now rewrite jsstring_eqb_refl in Ef.
  - destruct (jsstring_eqb k field) eqn:Ekf.
    + apply jsstring_eqb_eq in Ekf. subst k. now rewrite Ek.
    + exact IH.
Qed.

Lemma own_without name field data :
  own (without name data) field
  = if jsstring_eqb field name then None else own data field.
Proof.
  destruct data; try (now destruct (jsstring_eqb field name)).
  unfold own, without, get_prop. rewrite find_without.
  now destruct (jsstring_eqb field name).
Qed.

Lemma without_not_null name data : data <> JNull -> without name data <> JNull.
Proof. destruct data; simpl; congruence. Qed.

(** A field that is present but falsy selects as an absent one does. *)
Lemma json_or_without name field data v fallback :
  own data name = Some v -> json_truthy v = false ->
  json_or (own (without name data) field) fallback
  = json_or (own data field) fallback.
Proof.
  intros Hv Hf. rewrite own_without.
  destruct (jsstring_eqb field name) eqn:E; [|reflexivity].
  apply jsstring_eqb_eq in E. subst field. rewrite Hv. simpl. now rewrite Hf.
Qed.

(** C10.  When a response that is not a failure carries [currentSpeaker]
    or [mode] with a falsy value, such as the empty string, the call does
    exactly what it does for the same body without that field, and the
    state keeps its prior value of the field. *)
Theorem sendToLyra_falsy_field_as_absent userText data name v w :
  name = js "currentSpeaker" \/ name = js "mode" ->
  own data name = Some v -> json_truthy v = false ->
  sendToLyra userText (fun _ => Body true data) w
  = sendToLyra userText (fun _ => Body true (without name data)) w
  /\ (name = js "currentSpeaker" ->
      currentSpeaker (state (exec (sendToLyra userText (fun _ => Body true data)) w))
      = currentSpeaker (state w))
  /\ (name = js "mode" ->
      mode (state (exec (sendToLyra userText (fun _ => Body true data)) w))
      = mode (state w)).
Proof.
  intros Hname Hv Hf. pose proof (own_not_null data name v Hv) as Hd.
  pose proof (without_not_null name data Hd) as Hd'.
  split.
  - rewrite !sendToLyra_eq. cbv zeta.
    destruct (sanitizeSpokenInput userText) as [m|e]; [|reflexivity].
    rewrite (sendToLyra_response_success data _ Hd),
      (sendToLyra_response_success (without name data) _ Hd').
    now rewrite !(json_or_without name _ data v _ Hv Hf).
  - unfold exec. rewrite sendToLyra_eq. cbv zeta.
    destruct (sanitizeSpokenInput userText) as [m|e].
    + rewrite (sendToLyra_response_success data _ Hd). run_simpl.
      split; intros ->; unfold json_or; rewrite Hv, Hf; reflexivity.
    + destruct (sendToLyra_catch_reports e (exec (setStatus (js "Thinking")) w))
        as (_ & Hc & Hm & _).
      split; intros _;
        [etransitivity; [exact Hc | reflexivity]
        | etransitivity; [exact Hm | reflexivity]].
Qed.

Lemma sendToLyra_falsy_field_as_absent_witness :
  let userText := Example.hello in
  let data := Example.blank_speaker in
  let name := js "currentSpeaker" in
  let w := Example.loaded in
  sendToLyra userText (fun _ => Body true data) w
  = sendToLyra userText (fun _ => Body true (without name data)) w
  /\ (name = js "currentSpeaker" ->
      currentSpeaker (state (exec (sendToLyra userText (fun _ => Body true data)) w))
      = currentSpeaker (state w))
  /\ (name = js "mode" ->
      mode (state (exec (sendToLyra userText (fun _ => Body true data)) w))
      = mode (state w)).
Proof.
  cbv zeta.
  apply (sendToLyra_falsy_field_as_absent Example.hello Example.blank_speaker
           (js "currentSpeaker") (JStr []) Example.loaded).
  - left. reflexivity.
  - reflexivity.
  - reflexivity.
Defined.

(** ** The speech input adapter *)

(** The part of [sendToLyra] before the [await]. *)
Lemma sendToLyra_start_eq userText w :
  sendToLyra_start userText w
  = match sanitizeSpokenInput userText with
    | Normal m =>
        (Normal tt,
         with_effect (Fetch (request_of m (state w)))
           (exec (setStatus (js "Thinking")) w))
    | Throw e => sendToLyra_catch e (exec (setStatus (js "Thinking")) w)
    end.
Proof.
  unfold sendToLyra_start. unfold bind at 1. rewrite setStatus_run.
  unfold try_catch, bind. rewrite sendToLyra_request_eq.
  now destruct (sanitizeSpokenInput userText).
Qed.

Lemma sendToLyra_start_string s w :
  sendToLyra_start (VJson (JStr s)) w
  = (Normal tt,
     with_effect (Fetch (request_of (sanitize_string s) (state w)))
       (exec (setStatus (js "Thinking")) w)).
Proof. now rewrite sendToLyra_start_eq, sanitizeSpokenInput_string. Qed.

(** The two parts make the whole call when nothing comes in between. *)
Lemma sendToLyra_split userText net w m :
  sanitizeSpokenInput userText = Normal m ->
  sendToLyra userText net w
  = sendToLyra_resume (net (request_of m (state w)))
      (exec (sendToLyra_start userText) w).
Proof.
  intros Hm.
  assert (E : exec (sendToLyra_start userText) w
              = with_effect (Fetch (request_of m (state w)))
                  (exec (setStatus (js "Thinking")) w))
    by (unfold exec at 1; now rewrite sendToLyra_start_eq, Hm).
  rewrite E, sendToLyra_eq. cbv zeta. rewrite Hm.
  unfold sendToLyra_resume, try_catch.
  change (request_of m (state (exec (setStatus (js "Thinking")) w)))
    with (request_of m (state w)).
  now destruct (sendToLyra_response (net (request_of m (state w))) _) as [[a|e] w3].
Qed.



(** ** The interaction state machine *)

(** Of the button's classes, [updateUI] rewrites the three status
    classes only. *)
Lemma updateUI_writes_keeps_other_classes st u t :
  classList_contains t [js "listening"; js "thinking"; js "error"] = false ->
  classList_contains t (micButton_classList (updateUI_writes st u))
  = classList_contains t (micButton_classList u).
Proof.
  intros H. unfold updateUI_writes. cbn [micButton_classList].
  assert (jsstring_eqb t (js "listening") = false
          /\ jsstring_eqb t (js "thinking") = false
          /\ jsstring_eqb t (js "error") = false) as (Hl & Ht & He).
  { unfold classList_contains in H. simpl in H.
    repeat (apply orb_false_iff in H as [? H]). now repeat split. }
  destruct (jsstring_eqb (status st) (js "Listening"));
    destruct (jsstring_eqb (status st) (js "Thinking"));
    destruct (jsstring_eqb (status st) (js "Error"));
    rewrite ?classList_contains_add, classList_contains_remove, H, ?Hl, ?Ht, ?He;
    reflexivity.
Qed.

Section Invariant.

Lemma consistent_ext w w' :
  state w' = state w -> ui w' = ui w -> consistent w -> consistent w'.
Proof. unfold consistent. now intros -> ->. Qed.

Lemma preserves_ret {A} (a : A) : preserves (ret a).
Proof. now intros w H. Qed.

Lemma preserves_throw {A} e : preserves (@throw A e).
Proof. now intros w H. Qed.

Lemma preserves_lift {A} (c : completion A) : preserves (lift c).
Proof. now intros w H. Qed.

Lemma preserves_get {A} (f : World -> A) : preserves (get f).
Proof. now intros w H. Qed.

Lemma preserves_bind {A B} (m : M A) (k : A -> M B) :
  preserves m -> (forall a, preserves (k a)) -> preserves (bind m k).
Proof.
  intros Hm Hk w H. specialize (Hm w H). unfold exec, bind in *.
  destruct (m w) as [[a|e] w1]; [apply (Hk a w1 Hm) | exact Hm].
Qed.

Lemma preserves_try_catch {A} (body : M A) (handler : exn -> M A) :
  preserves body -> (forall e, preserves (handler e)) ->
  preserves (try_catch body handler).
Proof.
  intros Hb Hh w H. specialize (Hb w H). unfold exec, try_catch in *.
  destruct (body w) as [[a|e] w1]; [exact Hb | apply (Hh e w1 Hb)].
Qed.

Lemma preserves_emit e : preserves (emit e).
Proof. intros w H. now apply (consistent_ext w). Qed.

Lemma preserves_speak text : preserves (speak text).
Proof.
  intros w H. apply (consistent_ext w); [apply speak_state | apply speak_ui | exact H].
Qed.

Lemma preserves_with_recognition r : preserves (modify (with_recognition r)).
Proof. intros w H. now apply (consistent_ext w). Qed.

Lemma preserves_with_synth f : preserves (modify (with_synth f)).
Proof. intros w H. now apply (consistent_ext w). Qed.

Lemma preserves_recognitionActive b :
  preserves (modify (with_state (set_recognitionActive b))).
Proof. now intros w H. Qed.

(** [setStatus] with a value of the enumeration establishes the
    invariant. *)
Lemma setStatus_consistent value w :
  In value status_values -> consistent (exec (setStatus value) w).
Proof.
  intros H. rewrite setStatus_exec. split; [exact H|].
  apply updateUI_writes_projects.
Qed.

Lemma preserves_setStatus value : In value status_values -> preserves (setStatus value).
Proof. intros H w _. now apply setStatus_consistent. Qed.

Lemma updateUI_consistent w :
  status_valid (state w) -> consistent (exec updateUI w).
Proof. intros H. split; [exact H | apply updateUI_writes_projects]. Qed.

Lemma preserves_updateUI : preserves updateUI.
Proof. intros w [H _]. now apply updateUI_consistent. Qed.

Lemma preserves_getPreferredVoice : preserves getPreferredVoice.
Proof.
  intros w H. unfold exec, getPreferredVoice, bind, get, ret, throw.
  now destruct (speechSynthesisRef w).
Qed.

Ltac valid_status := unfold status_values; simpl; auto 10.

Ltac preserve :=
  repeat first
    [ apply preserves_ret | apply preserves_throw | apply preserves_lift
    | apply preserves_get | apply preserves_emit | apply preserves_speak
    | apply preserves_with_recognition | apply preserves_with_synth
    | apply preserves_recognitionActive | apply preserves_updateUI
    | apply preserves_getPreferredVoice
    | apply preserves_setStatus; valid_status
    | apply preserves_bind; [|intro]
    | apply preserves_try_catch; [|intro]
    | match goal with
      | |- preserves (if ?b then _ else _) => destruct b
      | |- preserves (match ?x with _ => _ end) => destruct x
      end ].


Lemma preserves_sendToLyra_start userText : preserves (sendToLyra_start userText).
Proof.
  unfold sendToLyra_start, sendToLyra_request. preserve.
Qed.


Lemma preserves_buildRecognition : preserves buildRecognition.
Proof. unfold buildRecognition. preserve. Qed.




End Invariant.


(** * Further properties *)

(** ** The sanitizer, continued *)

Section SanitizerShape.

Import Str.

Lemma firstn_starts_tight n s :
  starts_tight s = true -> starts_tight (firstn n s) = true.
Proof. destruct n, s; simpl; auto. Qed.

Lemma firstn_single_spaced n s :
  single_spaced s = true -> single_spaced (firstn n s) = true.
Proof.
  revert n. induction s as [|c r IH]; intros [|n]; try reflexivity.
  intros H. change (single_spaced (c :: r)) with
    ((if is_space c then (c =? space) && starts_tight r else true)
     && single_spaced r) in H.
  apply andb_true_iff in H as [H1 H2].
  change (firstn (S n) (c :: r)) with (c :: firstn n r).
  change (single_spaced (c :: firstn n r)) with
    ((if is_space c then (c =? space) && starts_tight (firstn n r) else true)
     && single_spaced (firstn n r)).
  rewrite (IH n H2), andb_true_r.
  destruct (is_space c); [|reflexivity].
  apply andb_true_iff in H1 as [H1 H3].
  now rewrite H1, (firstn_starts_tight n r H3).
Qed.

Lemma tidy_starts_tight s :
  starts_tight (trim (collapse_spaces (replace_special s))) = true.
Proof. apply trimEnd_starts_tight, trimStart_starts_tight. Qed.

Lemma sanitize_string_starts_tight s : starts_tight (sanitize_string s) = true.
Proof. apply firstn_starts_tight, tidy_starts_tight. Qed.

Lemma sanitize_string_single_spaced s : single_spaced (sanitize_string s) = true.
Proof. apply firstn_single_spaced, tidy_single_spaced. Qed.

Lemma trimEnd_id s : ends_tight s = true -> trimEnd s = s.
Proof.
  induction s as [|c r IH]; [reflexivity|].
  destruct r as [|c' r'].
  - simpl. now destruct (is_space c).
  - intros H. change (ends_tight (c :: c' :: r')) with (ends_tight (c' :: r')) in H.
    change (trimEnd (c :: c' :: r')) with
      (match trimEnd (c' :: r') with
       | [] => if is_space c then [] else [c]
       | t => c :: t
       end).
    now rewrite (IH H).
Qed.

Lemma trimEnd_ends_tight s : ends_tight (trimEnd s) = true.
Proof.
  induction s as [|c r IH]; [reflexivity|]. simpl.
  destruct (trimEnd r) as [|c' t] eqn:E.
  - destruct (is_space c) eqn:Ec; simpl; [reflexivity | now rewrite Ec].
  - exact IH.
Qed.

(** A string in the sanitizer's normal form, of any length, passes the
    two replacements and the removal of leading white space unchanged. *)
Lemma sanitize_string_normal_form s :
  no_special s -> single_spaced s = true -> starts_tight s = true ->
  (length s <= 600)%nat ->
  sanitize_string s = trimEnd s.
Proof.
  intros Hn Hs Ht Hl. rewrite sanitize_string_unfold.
  rewrite (replace_special_id s Hn), (collapse_spaces_id s Hs).
  unfold trim. rewrite (trimStart_id s Ht).
  apply firstn_all2. pose proof (trimEnd_length s). lia.
Qed.

Lemma sanitize_string_twice s :
  sanitize_string (sanitize_string s) = trimEnd (sanitize_string s).
Proof.
  apply sanitize_string_normal_form.
  - apply sanitize_string_no_special.
  - apply sanitize_string_single_spaced.
  - apply sanitize_string_starts_tight.
  - apply sanitize_string_length.
Qed.

End SanitizerShape.

(** X1.  Every string [sanitizeSpokenInput] returns starts with a unit
    that is not white space, and its only white space is single plain
    spaces (U+0020), none followed by another white-space unit.  For a
    string argument the result is never longer than the argument. *)
Theorem sanitizeSpokenInput_shape (text : jsval) (s : jsstring) :
  match sanitizeSpokenInput text with
  | Normal r => starts_tight r = true /\ single_spaced r = true
  | Throw _ => True
  end
  /\ exists r, sanitizeSpokenInput (VJson (JStr s)) = Normal r
               /\ (length r <= length s)%nat.
Proof.
  split.
  - unfold sanitizeSpokenInput.
    destruct (String_call (js_or text (VJson (JStr [])))); [|exact I].
    split; [apply sanitize_string_starts_tight | apply sanitize_string_single_spaced].
  - exists (sanitize_string s). rewrite sanitizeSpokenInput_string.
    split; [reflexivity|]. rewrite sanitize_string_unfold.
    rewrite length_firstn. pose proof (tidy_length s). lia.
Qed.

(** X2.  Text of at most 600 units that has none of the replaced
    characters, whose white space is single plain spaces, and that neither
    starts nor ends with white space is returned as it is. *)
Theorem sanitizeSpokenInput_fixes_tidy (s : jsstring) :
  no_special s -> single_spaced s = true ->
  starts_tight s = true -> ends_tight s = true ->
  (length s <= 600)%nat ->
  sanitizeSpokenInput (VJson (JStr s)) = Normal s.
Proof.
  intros Hn Hs Ht He Hl. rewrite sanitizeSpokenInput_string.
  now rewrite (sanitize_string_normal_form s Hn Hs Ht Hl), (trimEnd_id s He).
Qed.

Lemma sanitizeSpokenInput_fixes_tidy_witness :
  sanitizeSpokenInput (VJson (JStr (js "turn on the lights")))
  = Normal (js "turn on the lights").
Proof.
  apply (sanitizeSpokenInput_fixes_tidy (js "turn on the lights")).
  - unfold no_special. repeat constructor.
  - reflexivity.
  - reflexivity.
  - reflexivity.
  - simpl. lia.
Defined.

(** X3.  Sanitizing an already sanitized string only strips trailing
    white space (which the cut at 600 units can leave behind), so a third
    pass changes nothing: the sanitizer is idempotent from its second
    application on, for every string. *)
Theorem sanitizeSpokenInput_twice (s : jsstring) :
  exists r1 r2,
    sanitizeSpokenInput (VJson (JStr s)) = Normal r1
    /\ sanitizeSpokenInput (VJson (JStr r1)) = Normal r2
    /\ r2 = Str.trimEnd r1
    /\ sanitizeSpokenInput (VJson (JStr r2)) = Normal r2.
Proof.
  exists (sanitize_string s), (sanitize_string (sanitize_string s)).
  rewrite !sanitizeSpokenInput_string.
  split; [reflexivity|]. split; [reflexivity|].
  split; [apply sanitize_string_twice|].
  f_equal. rewrite (sanitize_string_twice (sanitize_string s)).
  rewrite sanitize_string_twice. apply trimEnd_idempotent.
Qed.

(** ** The speech output adapter *)



Lemma speak_noop text w :
  speechSynthesisRef w = None \/ json_truthy text = false ->
  speak text w = (Normal tt, with_effect (SpeakCall text) w).
Proof.
  intros H. unfold speak, emit, modify, bind, get, ret.
  cbn [speechSynthesisRef with_effect].
  destruct (speechSynthesisRef w); [|reflexivity].
  destruct H as [H|H]; [discriminate H | now rewrite H].
Qed.

(** X5.  Without speech synthesis, or with a falsy text (the empty
    string, [null], [0], [false]), [speak] does nothing: in particular it
    does not cancel what is being spoken.  Only the record of the call is
    added. *)
Theorem speak_nothing_to_say text w :
  speechSynthesisRef w = None \/ json_truthy text = false ->
  speak text w = (Normal tt, with_effect (SpeakCall text) w).
Proof. apply speak_noop. Qed.

Lemma speak_nothing_to_say_witness :
  speak (JStr []) Example.loaded
  = (Normal tt, with_effect (SpeakCall (JStr [])) Example.loaded).
Proof.
  apply (speak_nothing_to_say (JStr []) Example.loaded). right. reflexivity.
Defined.

(** ** The voice selector, continued *)

(** X6.  Without speech synthesis [getPreferredVoice] throws a
    [TypeError].  With it, the voice returned is one of the list, it is
    [undefined] exactly when the list is empty, and whenever some voice of
    the list has a matching locale tag the voice returned has one. *)
Theorem getPreferredVoice_from_list (w : World) :
  match speechSynthesisRef w with
  | None => getPreferredVoice w = (Throw TypeError, w)
  | Some s =>
      exists r,
        getPreferredVoice w = (Normal r, w)
        /\ (forall v, r = Some v -> In v (voices s))
        /\ (r = None <-> voices s = [])
        /\ (forall v, In v (voices s) -> lang_matches v = true ->
            exists v', r = Some v' /\ lang_matches v' = true)
  end.
Proof.
  unfold getPreferredVoice, bind, get, ret, throw.
  destruct (speechSynthesisRef w) as [s|]; [|reflexivity].
  eexists. split; [reflexivity|].
  fold lang_matches. fold name_matches.
  destruct (find lang_matches (voices s)) as [v1|] eqn:E1; cbn [object_or].
  - apply find_some in E1 as [Hin Hm]. split; [now intros v [= <-]|].
    split; [split; [discriminate | intros E; rewrite E in Hin; destruct Hin]|].
    intros _ _ _. now exists v1.
  - destruct (find name_matches (voices s)) as [v2|] eqn:E2; cbn [object_or].
    + apply find_some in E2 as [Hin Hm]. split; [now intros v [= <-]|].
      split; [split; [discriminate | intros E; rewrite E in Hin; destruct Hin]|].
      intros v Hv Hl. now rewrite (find_none _ _ E1 v Hv) in Hl.
    + split; [intros v Hv; now apply (nth_error_In _ 0)|].
      split; [destruct (voices s); simpl; split; congruence|].
      intros v Hv Hl. now rewrite (find_none _ _ E1 v Hv) in Hl.
Qed.

Lemma getPreferredVoice_from_list_witness :
  exists r,
    getPreferredVoice Example.loaded = (Normal r, Example.loaded)
    /\ (forall v, r = Some v -> In v (voices Example.synth))
    /\ (r = None <-> voices Example.synth = [])
    /\ (forall v, In v (voices Example.synth) -> lang_matches v = true ->
        exists v', r = Some v' /\ lang_matches v' = true).
Proof. exact (getPreferredVoice_from_list Example.loaded). Defined.

Section Patterns.

Import Str.

Lemma ci_prefix_caseless pat s s' :
  same_caseless s s' -> ci_prefix pat s = ci_prefix pat s'.
Proof.
  unfold same_caseless. revert s s'.
  induction pat as [|p pat IH]; intros [|c s] [|c' s'] H;
    try reflexivity; try discriminate H.
  simpl in *. injection H as Hc Hs. now rewrite Hc, (IH s s' Hs).
Qed.

Lemma ci_contains_caseless pat s s' :
  same_caseless s s' -> ci_contains pat s = ci_contains pat s'.
Proof.
  revert s'. induction s as [|c s IH]; intros [|c' s'] H; try discriminate H.
  - reflexivity.
  - change (ci_contains pat (c :: s)) with (ci_prefix pat (c :: s) || ci_contains pat s).
    change (ci_contains pat (c' :: s')) with (ci_prefix pat (c' :: s') || ci_contains pat s').
    rewrite (ci_prefix_caseless pat _ _ H).
    unfold same_caseless in *. simpl in H. injection H as _ Hs.
    now rewrite (IH s' Hs).
Qed.

Lemma ci_prefix_app pat s b : ci_prefix pat s = true -> ci_prefix pat (s ++ b) = true.
Proof.
  revert s. induction pat as [|p pat IH]; intros [|c s] H; try reflexivity;
    try discriminate H.
  simpl in *. apply andb_true_iff in H as [H1 H2].
  now rewrite H1, (IH s H2).
Qed.

Lemma ci_contains_unfold pat s :
  ci_contains pat s
  = ci_prefix pat s || match s with [] => false | _ :: s' => ci_contains pat s' end.
Proof. now destruct s. Qed.

Lemma ci_contains_app_r pat s b :
  ci_contains pat s = true -> ci_contains pat (s ++ b) = true.
Proof.
  induction s as [|c s IH]; intros H.
  - rewrite ci_contains_unfold in H. rewrite orb_false_r in H.
    rewrite ci_contains_unfold. now rewrite (ci_prefix_app pat [] b H).
  - rewrite ci_contains_unfold in H. apply orb_true_iff in H as [H|H].
    + rewrite ci_contains_unfold. now rewrite (ci_prefix_app pat (c :: s) b H).
    + change ((c :: s) ++ b) with (c :: (s ++ b)).
      rewrite ci_contains_unfold, (IH H). apply orb_true_r.
Qed.

Lemma ci_contains_app_l pat a s :
  ci_contains pat s = true -> ci_contains pat (a ++ s) = true.
Proof.
  intros H. induction a as [|c a IH]; [exact H|].
  change ((c :: a) ++ s) with (c :: (a ++ s)).
  rewrite ci_contains_unfold, IH. apply orb_true_r.
Qed.

Lemma test_alternatives_embedded pats s s' a b :
  same_caseless s' (a ++ s ++ b) ->
  test_alternatives pats s = true -> test_alternatives pats s' = true.
Proof.
  unfold test_alternatives. intros Hc H.
  apply existsb_exists in H as (p & Hp & Hm). apply existsb_exists.
  exists p. split; [exact Hp|].
  rewrite (ci_contains_caseless p s' _ Hc).
  now apply ci_contains_app_l, ci_contains_app_r.
Qed.

End Patterns.

(** X7.  The two pattern tests of [getPreferredVoice] are unanchored and
    ignore the case of ASCII letters: if a voice's locale tag (or name)
    matches, so does any tag (or name) that contains it, in any letter
    case. *)
Theorem voice_patterns_unanchored_caseless (v v' : Voice) (a b : jsstring) :
  (same_caseless (voice_lang v') (a ++ voice_lang v ++ b) ->
   lang_matches v = true -> lang_matches v' = true)
  /\ (same_caseless (voice_name v') (a ++ voice_name v ++ b) ->
      name_matches v = true -> name_matches v' = true).
Proof.
  unfold lang_matches, name_matches.
  split; intros Hc; now apply test_alternatives_embedded with (a := a) (b := b).
Qed.

Lemma voice_patterns_unanchored_caseless_witness :
  lang_matches Example2.tagged = true.
Proof.
  apply (voice_patterns_unanchored_caseless Example.ravi Example2.tagged
           (js "x_") (js "_y")); reflexivity.
Defined.

(** ** The interface refresh, continued *)

Lemma classList_remove_app ts a b :
  classList_remove ts (a ++ b) = classList_remove ts a ++ classList_remove ts b.
Proof. apply filter_app. Qed.

Lemma classList_remove_idempotent ts cl :
  classList_remove ts (classList_remove ts cl) = classList_remove ts cl.
Proof.
  unfold classList_remove. induction cl as [|c cl IH]; [reflexivity|]. simpl.
  destruct (classList_contains c ts) eqn:E; simpl; [exact IH|].
  now rewrite E, IH.
Qed.

Lemma classList_remove_add ts t cl :
  classList_contains t ts = true ->
  classList_remove ts (classList_add t cl) = classList_remove ts cl.
Proof.
  intros H. unfold classList_add.
  destruct (classList_contains t cl); [reflexivity|].
  rewrite classList_remove_app. unfold classList_remove at 2. simpl.
  rewrite H. apply app_nil_r.
Qed.

(** X8.  Refreshing the page twice is the same as refreshing it once:
    [updateUI] is idempotent, class order included. *)
Theorem updateUI_idempotent w :
  exec updateUI (exec updateUI w) = exec updateUI w.
Proof.
  rewrite !updateUI_exec. unfold with_ui. cbn [state ui]. f_equal.
  unfold updateUI_writes. cbn [micButton_classList]. f_equal.
  set (three := [js "listening"; js "thinking"; js "error"]).
  assert (R : classList_remove three
                (let cl := classList_remove three (micButton_classList (ui w)) in
                 let cl := if jsstring_eqb (status (state w)) (js "Listening")
                           then classList_add (js "listening") cl else cl in
                 let cl := if jsstring_eqb (status (state w)) (js "Thinking")
                           then classList_add (js "thinking") cl else cl in
                 if jsstring_eqb (status (state w)) (js "Error")
                 then classList_add (js "error") cl else cl)
              = classList_remove three (micButton_classList (ui w))).
  { cbv zeta.
    destruct (jsstring_eqb (status (state w)) (js "Listening"));
      destruct (jsstring_eqb (status (state w)) (js "Thinking"));
      destruct (jsstring_eqb (status (state w)) (js "Error"));
      repeat (rewrite classList_remove_add by reflexivity);
      apply classList_remove_idempotent. }
  cbv zeta in R. now rewrite R.
Qed.

(** ** Invariants of the event loop *)

Lemma keeps_ret {A} I (a : A) : keeps I (ret a).
Proof. now intros w H. Qed.

Lemma keeps_throw {A} I e : keeps I (@throw A e).
Proof. now intros w H. Qed.

Lemma keeps_lift {A} I (c : completion A) : keeps I (lift c).
Proof. now intros w H. Qed.

Lemma keeps_get {A} I (f : World -> A) : keeps I (get f).
Proof. now intros w H. Qed.

Lemma keeps_modify I (f : World -> World) :
  (forall w, I w -> I (f w)) -> keeps I (modify f).
Proof. intros Hf w H. now apply Hf. Qed.

Lemma keeps_bind {A B} I (m : M A) (k : A -> M B) :
  keeps I m -> (forall a, keeps I (k a)) -> keeps I (bind m k).
Proof.
  intros Hm Hk w H. specialize (Hm w H). unfold exec, bind in *.
  destruct (m w) as [[a|e] w1]; [apply (Hk a w1 Hm) | exact Hm].
Qed.

Lemma keeps_try_catch {A} I (body : M A) (handler : exn -> M A) :
  keeps I body -> (forall e, keeps I (handler e)) ->
  keeps I (try_catch body handler).
Proof.
  intros Hb Hh w H. specialize (Hb w H). unfold exec, try_catch in *.
  destruct (body w) as [[a|e] w1]; [exact Hb | apply (Hh e w1 Hb)].
Qed.

Lemma keeps_run I es w0 :
  (forall e, keeps I (dispatch e)) -> I w0 ->
  I (fold_left (fun w e => exec (dispatch e) w) es w0).
Proof.
  intros Hd. revert w0. induction es as [|e es IH]; intros w0 H; simpl; [exact H|].
  apply IH. now apply Hd.
Qed.

(** Walks through an action built from the monad's operations; [prim]
    closes the actions treated as units, [solver] the obligations of
    [modify]. *)
Ltac keep_with prim solver :=
  repeat first
    [ prim
    | apply keeps_ret | apply keeps_throw | apply keeps_lift | apply keeps_get
    | apply keeps_modify; solver
    | apply keeps_bind; [|intro]
    | apply keeps_try_catch; [|intro]
    | progress cbv beta
    | match goal with
      | |- keeps _ (if ?b then _ else _) => destruct b
      | |- keeps _ (match ?x with _ => _ end) => destruct x
      end ].

(** *** The synthesis queue *)

Lemma keeps_queue_speak synth0 text : keeps (queue_short synth0) (speak text).
Proof.
  intros w H. unfold queue_short in *.
  destruct (speechSynthesisRef w) as [s|] eqn:E.
  - destruct (json_truthy text) eqn:T.
    + destruct (speak_queue text w s E T) as (u & -> & _).
      destruct synth0; [now right | exact H].
    + unfold exec. rewrite (speak_noop text w (or_intror T)).
      cbn [snd speechSynthesisRef with_effect]. now rewrite E.
  - now rewrite (speak_without_synth text w E).
Qed.

Ltac queue_solver :=
  let w := fresh "w" in
  let H := fresh "H" in
  intros w H; unfold queue_short in *;
  cbn [speechSynthesisRef with_state with_ui with_effect with_recognition with_synth];
  try exact H;
  destruct (speechSynthesisRef w); cbn [option_map queue]; exact H.

Lemma keeps_queue_dispatch synth0 e : keeps (queue_short synth0) (dispatch e).
Proof.
  destruct e as [b| |event| | |o|[]|vs]; cbn [dispatch run_callback];
    try (keep_with ltac:(apply keeps_queue_speak) queue_solver; fail).
  unfold sendToLyra_resume.
  destruct o as [e|ok e|ok data];
    keep_with ltac:(apply keeps_queue_speak) queue_solver.
Qed.

Lemma keeps_queue_main synth0 : keeps (queue_short synth0) main.
Proof. unfold main. keep_with ltac:(apply keeps_queue_speak) queue_solver. Qed.

(** X9.  However many times the script speaks, it never leaves more than
    one of its utterances in the synthesis queue: counting what the script
    submits and cancels, after any sequence of events the queue is as the
    script found it or holds exactly one utterance, and a browser without
    speech synthesis stays without. *)
Theorem queue_never_piles_up page synth sr es :
  match speechSynthesisRef (run es (initial_world page synth sr)), synth with
  | Some s, Some s0 => queue s = queue s0 \/ length (queue s) = 1%nat
  | None, None => True
  | _, _ => False
  end.
Proof.
  change (queue_short synth (run es (initial_world page synth sr))).
  unfold run. apply keeps_run; [apply keeps_queue_dispatch|].
  apply keeps_queue_main. unfold queue_short. cbn [speechSynthesisRef initial_world].
  destruct synth; auto.
Qed.

(** *** The speaker and the mode *)

Lemma json_or_truthy field fallback :
  json_truthy fallback = true -> json_truthy (json_or field fallback) = true.
Proof.
  intros H. unfold json_or. destruct field as [v|]; [|exact H].
  now destruct (json_truthy v) eqn:E.
Qed.

Ltac truthy_solver :=
  let w := fresh "w" in
  let H := fresh "H" in
  intros w H; exact H.

Lemma keeps_truthy_resume o : keeps speaker_mode_truthy (sendToLyra_resume o).
Proof.
  intros w [H1 H2]. unfold exec, sendToLyra_resume, try_catch.
  destruct (sendToLyra_response_cases o w) as [[e E] | (data & -> & Hd)].
  - rewrite E. destruct (sendToLyra_catch_reports e w) as (_ & Hc & Hm & _).
    unfold exec in Hc, Hm. unfold speaker_mode_truthy. now rewrite Hc, Hm.
  - destruct (sendToLyra_response_effect data w Hd) as (_ & Hc & Hm & _).
    unfold exec in Hc, Hm.
    rewrite (sendToLyra_response_success data w Hd) in *. cbn [snd] in *.
    unfold speaker_mode_truthy. rewrite Hc, Hm.
    split; now apply json_or_truthy.
Qed.

Lemma keeps_truthy_dispatch e : keeps speaker_mode_truthy (dispatch e).
Proof.
  destruct e as [b| |event| | |o|[]|vs]; cbn [dispatch run_callback];
    keep_with ltac:(apply keeps_truthy_resume) truthy_solver.
Qed.

Lemma keeps_truthy_main : keeps speaker_mode_truthy main.
Proof. unfold main. keep_with fail truthy_solver. Qed.

(** X10.  [state.currentSpeaker] and [state.mode] are truthy at all
    times: they start as non-empty strings and a response can only replace
    them by a truthy value, so no sequence of events makes either empty,
    [null], [0] or [false]. *)
Theorem speaker_and_mode_stay_truthy page synth sr es :
  json_truthy (currentSpeaker (state (run es (initial_world page synth sr)))) = true
  /\ json_truthy (mode (state (run es (initial_world page synth sr)))) = true.
Proof.
  change (speaker_mode_truthy (run es (initial_world page synth sr))).
  unfold run. apply keeps_run; [apply keeps_truthy_dispatch|].
  apply keeps_truthy_main. split; reflexivity.
Qed.

(** *** Listening and the recognition flag *)

Lemma not_listening_suffices w :
  status (state w) <> js "Listening" -> listening_is_active w.
Proof. intros H E. now destruct H. Qed.

Lemma listening_same_state w w' :
  state w' = state w -> listening_is_active w -> listening_is_active w'.
Proof. unfold listening_is_active. now intros ->. Qed.

Ltac other_status :=
  apply not_listening_suffices; run_simpl;
  let E := fresh "E" in intros E; vm_compute in E; discriminate E.

Lemma keeps_listening_catch e : keeps listening_is_active (sendToLyra_catch e).
Proof.
  intros w _. apply not_listening_suffices.
  destruct (sendToLyra_catch_reports e w) as ([Hst _] & _).
  rewrite Hst. intros E. vm_compute in E. discriminate E.
Qed.

Lemma keeps_listening_dispatch e : keeps listening_is_active (dispatch e).
Proof.
  intros w H. destruct e as [b| |event| | |o|[]|vs]; cbn [dispatch run_callback].
  - (* click *)
    unfold exec, micButton_click, bind, get.
    destruct (recognition w) as [r|].
    + destruct (recognitionActive (state w)).
      * unfold emit, modify. rewrite setStatus_run. cbn [snd]. other_status.
      * unfold try_catch. destruct b.
        -- unfold throw. rewrite setStatus_run. cbn [snd]. other_status.
        -- now apply (listening_same_state w).
    + unfold buildRecognition, bind, get. destruct (SpeechRecognition w); cbn [negb].
      * now apply (listening_same_state w).
      * rewrite setStatus_run, speak_eq. unfold ret, modify. cbn [snd].
        other_status.
  - (* onstart *)
    unfold exec, recognition_onstart, bind, modify. rewrite setStatus_run.
    cbn [snd]. intros _. reflexivity.
  - (* onresult *)
    unfold exec, recognition_onresult, bind, lift.
    destruct (sanitizeSpokenInput (js_or (first_transcript event) (VJson (JStr []))))
      as [[|c s]|e]; [| |exact H].
    + rewrite setStatus_run. cbn [snd]. other_status.
    + rewrite sendToLyra_start_string. cbn [snd]. other_status.
  - (* onerror *)
    unfold exec, recognition_onerror, bind, modify, emit, modify.
    rewrite setStatus_run, speak_eq. cbn [snd]. other_status.
  - (* onend *)
    unfold exec, recognition_onend, bind, modify, get. cbn [state with_state].
    cbn [status set_recognitionActive].
    destruct (jsstring_eqb (status (state w)) (js "Listening")) eqn:E.
    + rewrite setStatus_run. cbn [snd]. other_status.
    + apply not_listening_suffices. cbn. intros E'.
      apply jsstring_eqb_eq in E'. congruence.
  - (* a settled request *)
    unfold exec, sendToLyra_resume, try_catch.
    destruct (sendToLyra_response_cases o w) as [[e E] | (data & -> & Hd)].
    + rewrite E. now apply keeps_listening_catch.
    + destruct (sendToLyra_response_effect data w Hd) as (_ & _ & _ & Hst & _).
      unfold exec in Hst.
      rewrite (sendToLyra_response_success data w Hd) in *. cbn [snd] in *.
      apply not_listening_suffices. rewrite Hst.
      intros E. vm_compute in E. discriminate E.
  - (* a timer *)
    unfold exec. rewrite setStatus_run. cbn [snd]. other_status.
  - (* voiceschanged *)
    revert w H. change (keeps listening_is_active (voiceschanged vs)).
    unfold voiceschanged. keep_with fail truthy_solver.
Qed.

Lemma listening_main page synth sr :
  listening_is_active (exec main (initial_world page synth sr)).
Proof.
  unfold exec, main, buildRecognition. unfold bind at 1 2. unfold get.
  cbn [SpeechRecognition initial_world]. destruct sr; cbn [negb].
  - unfold ret, bind, modify, updateUI, modify. cbn [snd]. other_status.
  - unfold bind. rewrite setStatus_run, speak_eq. unfold ret, modify, updateUI, modify.
    cbn [snd]. other_status.
Qed.

(** X11.  After any sequence of events, whenever the status is
    [Listening], [state.recognitionActive] is set. *)
Theorem listening_means_active page synth sr es :
  if jsstring_eqb (status (state (run es (initial_world page synth sr))))
       (js "Listening")
  then recognitionActive (state (run es (initial_world page synth sr))) = true
  else True.
Proof.
  assert (H : listening_is_active (run es (initial_world page synth sr))).
  { unfold run. apply keeps_run; [apply keeps_listening_dispatch|].
    apply listening_main. }
  destruct (jsstring_eqb _ _) eqn:E; [|exact I].
  apply H. now apply jsstring_eqb_eq.
Qed.

(** *** The recognition object *)

Ltac settled_solver :=
  let w := fresh "w" in
  let H := fresh "H" in
  intros w H; unfold recognition_settled in *;
  cbn [SpeechRecognition recognition effects
       with_state with_ui with_effect with_synth];
  first
    [ exact H
    | let H1 := fresh "H" in
      let H2 := fresh "H" in
      let H3 := fresh "H" in
      destruct H as (H1 & H2 & H3);
      split; [exact H1 | split; [exact H2|]];
      match goal with
      | |- if ?sr then _ else _ =>
          destruct sr; [exact I|];
          let Hin := fresh "Hin" in
          intros [Hin|Hin]; [discriminate Hin | exact (H3 Hin)]
      end ].

Lemma keeps_settled_speak sr text : keeps (recognition_settled sr) (speak text).
Proof. unfold speak. keep_with fail settled_solver. Qed.

Lemma keeps_settled_click sr b : keeps (recognition_settled sr) (micButton_click b).
Proof.
  intros w (H1 & H2 & H3). unfold exec, micButton_click, bind, get.
  destruct (recognition w) as [r|] eqn:R.
  - assert (sr = true) as -> by (destruct sr; [reflexivity | discriminate H2]).
    destruct (recognitionActive (state w)).
    + unfold emit, modify. rewrite setStatus_run. cbn [snd].
      unfold recognition_settled. run_simpl. now rewrite R.
    + unfold try_catch. destruct b.
      * unfold throw. rewrite setStatus_run. cbn [snd].
        unfold recognition_settled. run_simpl. now rewrite R.
      * unfold emit, modify. cbn [snd]. unfold recognition_settled.
        cbn [SpeechRecognition recognition with_effect]. now rewrite R.
  - assert (sr = false) as -> by (destruct sr; [discriminate H2 | reflexivity]).
    unfold buildRecognition, bind, get. rewrite H1. cbn [negb].
    rewrite setStatus_run. unfold ret, modify.
    assert (K : recognition_settled false
                  (exec (speak (JStr (js "Speech recognition is not supported in this browser. Please use Chrome.")))
                     (with_ui (updateUI_writes (set_status (js "Error") (state w)))
                        (with_state (set_status (js "Error")) w)))).
    { apply keeps_settled_speak. unfold recognition_settled.
      cbn [SpeechRecognition recognition effects with_ui with_state].
      now rewrite R. }
    rewrite speak_eq. cbn [snd]. destruct K as (K1 & K2 & K3).
    unfold recognition_settled. cbn [SpeechRecognition recognition effects with_recognition].
    now repeat split.
Qed.

Lemma keeps_settled_dispatch sr e : keeps (recognition_settled sr) (dispatch e).
Proof.
  destruct e as [b| |event| | |o|[]|vs]; cbn [dispatch run_callback];
    try apply keeps_settled_click;
    try unfold sendToLyra_resume; try destruct o;
    keep_with fail settled_solver.
Qed.

Lemma settled_main page synth sr :
  recognition_settled sr (exec main (initial_world page synth sr)).
Proof.
  unfold exec, main, buildRecognition. unfold bind at 1 2. unfold get.
  cbn [SpeechRecognition initial_world]. destruct sr; cbn [negb].
  - unfold ret, bind, modify, updateUI, modify. cbn [snd].
    unfold recognition_settled. cbn. now repeat split.
  - unfold bind. rewrite setStatus_run. unfold ret, modify, updateUI, modify.
    assert (K : recognition_settled false
                  (exec (speak (JStr (js "Speech recognition is not supported in this browser. Please use Chrome.")))
                     (with_ui (updateUI_writes (set_status (js "Error")
                                                  (state (initial_world page synth false))))
                        (with_state (set_status (js "Error"))
                           (initial_world page synth false))))).
    { apply keeps_settled_speak. unfold recognition_settled. cbn.
      repeat split. intros []. }
    rewrite speak_eq. cbn [snd]. destruct K as (K1 & K2 & K3).
    unfold recognition_settled.
    cbn [SpeechRecognition recognition effects with_recognition with_ui].
    now repeat split.
Qed.

(** X12.  In a browser with speech recognition the [recognition] object
    is, at all times, the one [buildRecognition] configures: locale
    [en-IN], no interim results, one alternative.  In a browser without
    it, [recognition] stays [null] however often the button is clicked,
    and [recognition.start()] is never called. *)
Theorem recognition_object_is_settled page synth sr es :
  recognition (run es (initial_world page synth sr))
  = (if sr then Some configured else None)
  /\ (if sr then True
      else ~ In RecognitionStart (effects (run es (initial_world page synth sr)))).
Proof.
  assert (H : recognition_settled sr (run es (initial_world page synth sr))).
  { unfold run. apply keeps_run; [apply keeps_settled_dispatch | apply settled_main]. }
  destruct H as (_ & H2 & H3). now split.
Qed.

(** *** The requests *)

















(** ** Exceptions *)











(** ** The conversation client, continued *)


(** ** The speech input adapter, continued *)





(** X20.  A click while recognition is active calls [recognition.stop()]
    and sets the status to [Idle] but leaves [recognitionActive] set; it
    is the end callback that clears it, and it leaves the status
    [Idle]. *)
Theorem stop_then_end w r :
  recognition w = Some r -> recognitionActive (state w) = true ->
  let w1 := exec (micButton_click false) w in
  let w2 := exec recognition_onend w1 in
  effects w1 = RecognitionStop :: effects w
  /\ status (state w1) = js "Idle"
  /\ recognitionActive (state w1) = true
  /\ status (state w2) = js "Idle"
  /\ recognitionActive (state w2) = false
  /\ effects w2 = effects w1.
Proof.
  intros R A. cbv zeta.
  assert (E1 : exec (micButton_click false) w
               = exec (setStatus (js "Idle")) (with_effect RecognitionStop w)).
  { unfold exec at 1, micButton_click, bind, get. rewrite R, A.
    unfold emit, modify. now rewrite setStatus_run. }
  assert (E2 : exec recognition_onend (exec (micButton_click false) w)
               = with_state (set_recognitionActive false)
                   (exec (micButton_click false) w)).
  { unfold exec at 1, recognition_onend, bind, modify, get.
    rewrite E1. run_simpl. reflexivity. }
  rewrite E2, E1. run_simpl. now repeat split.
Qed.

Lemma stop_then_end_witness :
  let w := exec recognition_onstart Example.loaded in
  let w1 := exec (micButton_click false) w in
  let w2 := exec recognition_onend w1 in
  effects w1 = RecognitionStop :: effects w
  /\ status (state w1) = js "Idle"
  /\ recognitionActive (state w1) = true
  /\ status (state w2) = js "Idle"
  /\ recognitionActive (state w2) = false
  /\ effects w2 = effects w1.
Proof.
  cbv zeta.
  apply (stop_then_end (exec recognition_onstart Example.loaded)
           {| rec_lang := CONFIG.LANG; interimResults := false; maxAlternatives := 1 |});
    reflexivity.
Defined.

(** ** The interface refresh, once more *)

(** X21.  [updateUI] touches no class of the button other than
    [listening], [thinking] and [error]: any other class is on the button
    after the refresh exactly if it was before. *)
Theorem updateUI_keeps_other_classes w t :
  classList_contains t [js "listening"; js "thinking"; js "error"] = false ->
  classList_contains t (micButton_classList (ui (exec updateUI w)))
  = classList_contains t (micButton_classList (ui w)).
Proof.
  intros H. rewrite updateUI_exec. cbn [ui with_ui].
  now apply updateUI_writes_keeps_other_classes.
Qed.

Lemma updateUI_keeps_other_classes_witness :
  classList_contains (js "mic-button")
    (micButton_classList (ui (exec updateUI Example.loaded)))
  = classList_contains (js "mic-button") (micButton_classList (ui Example.loaded)).
Proof.
  apply (updateUI_keeps_other_classes Example.loaded (js "mic-button")).
  reflexivity.
Defined.
